(** * UltraArt batch upscaler: the orchestration logic of [App.tsx]

    A shallow embedding of the state handlers of the [App] component
    (submission, settings propagation, removal, the sequential batch run
    and the ZIP export) together with the properties the design document
    states about them.

    React state is modelled by explicit state passing: every
    [setFiles(prev => ...)] call is a function on the file list, and a
    handler is the composition of the updaters it issues.  The browser and
    the collaborators that are not part of the component ([Math.random],
    [URL.createObjectURL], [fetch], [processImage]) are oracles supplied by
    the environment. *)

From Stdlib Require Import String Ascii List Bool Arith Lia.
Import ListNotations.
Local Open Scope string_scope.
Local Open Scope list_scope.
Local Open Scope nat_scope.

(** ** Data model ([types.ts], as used by [App.tsx]) *)

Inductive ProcessingStatus : Type :=
  | IDLE
  | PROCESSING
  | COMPLETED
  | ERROR.

Definition status_eqb (a b : ProcessingStatus) : bool :=
  match a, b with
  | IDLE, IDLE | PROCESSING, PROCESSING
  | COMPLETED, COMPLETED | ERROR, ERROR => true
  | _, _ => false
  end.

(** Modelled from the spec: the enum [UpscaleFactor] of [types.ts] is not
    part of the sources at hand; the settings panel lists its members
    [NONE], [X2], [X4], [X8] and the design document gives their values
    1, 2, 4 and 8. *)
Inductive UpscaleFactor : Type :=
  | NONE
  | X2
  | X4
  | X8.

Definition factor_value (f : UpscaleFactor) : nat :=
  match f with
  | NONE => 1
  | X2 => 2
  | X4 => 4
  | X8 => 8
  end.

(** [DpiOutput] is a numeric enum; at run time a plain number. *)
Definition DpiOutput : Type := nat.
Definition DPI_300 : DpiOutput := 300.

Record ImageSettings : Type := mkSettings {
  upscaleFactor : UpscaleFactor;
  dpi : DpiOutput;
  preserveStyle : bool;
  enabled : bool
}.

(** [Partial<ImageSettings>]: [None] is a key that is absent from the
    object literal. *)
Record PartialSettings : Type := mkPartial {
  upscaleFactor_opt : option UpscaleFactor;
  dpi_opt : option DpiOutput;
  preserveStyle_opt : option bool;
  enabled_opt : option bool
}.

Definition spread_key {A : Type} (old : A) (new : option A) : A :=
  match new with
  | Some v => v
  | None => old
  end.

(** [{ ...s, ...d }] *)
Definition merge_settings (s : ImageSettings) (d : PartialSettings)
  : ImageSettings :=
  {| upscaleFactor := spread_key (upscaleFactor s) (upscaleFactor_opt d);
     dpi := spread_key (dpi s) (dpi_opt d);
     preserveStyle := spread_key (preserveStyle s) (preserveStyle_opt d);
     enabled := spread_key (enabled s) (enabled_opt d) |}.

Definition DEFAULT_SETTINGS : ImageSettings :=
  {| upscaleFactor := X4;
     dpi := DPI_300;
     preserveStyle := true;
     enabled := true |}.

(** The browser's [File]: only the members the component reads. *)
Record File : Type := mkFile {
  name : string;
  type : string;
  size : nat
}.

Record ImageFile : Type := mkImageFile {
  id : string;
  file : File;
  originalName : string;
  previewUrl : string;
  status : ProcessingStatus;
  settings : ImageSettings;
  width : nat;
  height : nat;
  processedUrl : option string;
  error : option string;
  analysis : option string
}.

(** Object spreads that replace some keys of an item. *)
Definition with_status (f : ImageFile) (s : ProcessingStatus) : ImageFile :=
  {| id := id f; file := file f; originalName := originalName f;
     previewUrl := previewUrl f; status := s; settings := settings f;
     width := width f; height := height f;
     processedUrl := processedUrl f; error := error f;
     analysis := analysis f |}.

Definition with_settings (f : ImageFile) (s : ImageSettings) : ImageFile :=
  {| id := id f; file := file f; originalName := originalName f;
     previewUrl := previewUrl f; status := status f; settings := s;
     width := width f; height := height f;
     processedUrl := processedUrl f; error := error f;
     analysis := analysis f |}.

Definition with_dimensions (f : ImageFile) (w h : nat) : ImageFile :=
  {| id := id f; file := file f; originalName := originalName f;
     previewUrl := previewUrl f; status := status f; settings := settings f;
     width := w; height := h;
     processedUrl := processedUrl f; error := error f;
     analysis := analysis f |}.

Definition with_analysis (f : ImageFile) (a : string) : ImageFile :=
  {| id := id f; file := file f; originalName := originalName f;
     previewUrl := previewUrl f; status := status f; settings := settings f;
     width := width f; height := height f;
     processedUrl := processedUrl f; error := error f;
     analysis := Some a |}.

(** [{ ...f, status: COMPLETED, processedUrl: resultUrl }] *)
Definition with_completed (f : ImageFile) (resultUrl : string) : ImageFile :=
  {| id := id f; file := file f; originalName := originalName f;
     previewUrl := previewUrl f; status := COMPLETED; settings := settings f;
     width := width f; height := height f;
     processedUrl := Some resultUrl; error := error f;
     analysis := analysis f |}.

(** [{ ...f, status: ERROR, error: "Processing failed" }] *)
Definition with_error (f : ImageFile) : ImageFile :=
  {| id := id f; file := file f; originalName := originalName f;
     previewUrl := previewUrl f; status := ERROR; settings := settings f;
     width := width f; height := height f;
     processedUrl := processedUrl f; error := Some "Processing failed";
     analysis := analysis f |}.

(** ** The [setFiles] updaters *)

(** [prev.map(f => f.id === i ? g(f) : f)] *)
Definition update_by_id (i : string) (g : ImageFile -> ImageFile)
  (prev : list ImageFile) : list ImageFile :=
  map (fun f => if String.eqb (id f) i then g f else f) prev.

(** The [onload] callback of the dimension probe (line 58). *)
Definition probe_resolved (i : string) (w h : nat)
  (prev : list ImageFile) : list ImageFile :=
  update_by_id i (fun f => with_dimensions f w h) prev.

(** The updater inside [updateGlobalSettings] (lines 76-80). *)
Definition apply_to_idle (newSettings : PartialSettings)
  (files : list ImageFile) : list ImageFile :=
  map (fun f =>
         if status_eqb (status f) IDLE
         then with_settings f (merge_settings (settings f) newSettings)
         else f) files.

Definition updateFileSettings (i : string) (newSettings : PartialSettings)
  (prev : list ImageFile) : list ImageFile :=
  update_by_id i
    (fun f => with_settings f (merge_settings (settings f) newSettings)) prev.

Definition updateFileAnalysis (i : string) (a : string)
  (prev : list ImageFile) : list ImageFile :=
  update_by_id i (fun f => with_analysis f a) prev.

(** [prev.filter(f => f.id !== i)] *)
Definition removeFile (i : string) (prev : list ImageFile) : list ImageFile :=
  filter (fun f => negb (String.eqb (id f) i)) prev.

(** ** Environment

    The constants the component imports and the oracles it calls.  Streams
    are indexed by the number of calls made so far, so that a handler is a
    function of the state it starts from. *)

Definition Blob : Type := string.

Record Env : Type := mkEnv {
  (** [MAX_FILES] of [constants.ts] *)
  MAX_FILES : nat;
  (** the string [Math.random().toString(36)] of the k-th call *)
  random36 : nat -> string;
  (** the URL minted by the k-th call of [URL.createObjectURL] *)
  createObjectURL : nat -> string;
  (** [fetch(url).then(r => r.blob())]: [None] when the promise rejects *)
  fetch_blob : string -> option Blob;
  (** [new Date().toISOString()] *)
  toISOString_now : string
}.

(** How the promise returned by [processImage] settles. *)
Inductive Settled : Type :=
  | Resolved (resultUrl : string)
  | Rejected.

(** ** Component state

    The [useState] cells of [App], the two call counters of the oracles,
    the dimension probes that have not fired yet, and the suspended
    [processBatch] coroutine: the items of its snapshot still to be
    processed and the one whose [processImage] promise is pending. *)
Record World : Type := mkWorld {
  files : list ImageFile;
  globalSettings : ImageSettings;
  isProcessingBatch : bool;
  isZipping : bool;
  probes : list string;
  filesToProcess_rest : list ImageFile;
  awaited : option ImageFile;
  random_calls : nat;
  url_calls : nat
}.

Definition initial_world : World :=
  {| files := [];
     globalSettings := DEFAULT_SETTINGS;
     isProcessingBatch := false;
     isZipping := false;
     probes := [];
     filesToProcess_rest := [];
     awaited := None;
     random_calls := 0;
     url_calls := 0 |}.

Definition setFiles (u : list ImageFile -> list ImageFile) (w : World)
  : World :=
  {| files := u (files w);
     globalSettings := globalSettings w;
     isProcessingBatch := isProcessingBatch w;
     isZipping := isZipping w;
     probes := probes w;
     filesToProcess_rest := filesToProcess_rest w;
     awaited := awaited w;
     random_calls := random_calls w;
     url_calls := url_calls w |}.

(** ** [handleFiles] (lines 33-64) *)

Definition is_image (f : File) : bool := prefix "image/" (type f).

(** [Math.random().toString(36).substr(2, 9)] on the k-th draw *)
Definition fresh_id (env : Env) (k : nat) : string :=
  substring 2 9 (random36 env k).

(** The object literal of lines 43-52, built with the [r]-th random draw
    and the [u]-th minted URL. *)
Definition new_item (env : Env) (gs : ImageSettings) (r u : nat) (f : File)
  : ImageFile :=
  {| id := fresh_id env r;
     file := f;
     originalName := name f;
     previewUrl := createObjectURL env u;
     status := IDLE;
     settings := gs;
     width := 0;
     height := 0;
     processedUrl := None;
     error := None;
     analysis := None |}.

(** [validFiles.map(file => ({ ... }))], threading the call counters *)
Fixpoint new_items (env : Env) (gs : ImageSettings) (r u : nat)
  (validFiles : list File) : list ImageFile :=
  match validFiles with
  | [] => []
  | f :: rest => new_item env gs r u f :: new_items env gs (S r) (S u) rest
  end.

(** The handler is re-created whenever [files] or [globalSettings]
    change, so the [files] it closes over is the list of the state it is
    called in. *)
Definition handleFiles (env : Env) (newFiles : option (list File))
  (w : World) : World :=
  match newFiles with
  | None => w
  | Some fl =>
      let validFiles := filter is_image fl in
      if MAX_FILES env <? length (files w) + length validFiles then w
      else
        let processedFiles :=
          new_items env (globalSettings w) (random_calls w) (url_calls w)
                    validFiles in
        {| files := files w ++ processedFiles;
           globalSettings := globalSettings w;
           isProcessingBatch := isProcessingBatch w;
           isZipping := isZipping w;
           probes := probes w ++ map id processedFiles;
           filesToProcess_rest := filesToProcess_rest w;
           awaited := awaited w;
           random_calls := random_calls w + length validFiles;
           url_calls := url_calls w + length validFiles |}
  end.

(** The [k]-th pending probe fires with the decoded size. *)
Definition img_onload (k w h : nat) (s : World) : World :=
  match nth_error (probes s) k with
  | None => s
  | Some i =>
      {| files := probe_resolved i w h (files s);
         globalSettings := globalSettings s;
         isProcessingBatch := isProcessingBatch s;
         isZipping := isZipping s;
         probes := firstn k (probes s) ++ skipn (S k) (probes s);
         filesToProcess_rest := filesToProcess_rest s;
         awaited := awaited s;
         random_calls := random_calls s;
         url_calls := url_calls s |}
  end.

(** ** [updateGlobalSettings] (lines 72-83) *)

Definition updateGlobalSettings (newSettings : PartialSettings) (w : World)
  : World :=
  {| files := apply_to_idle newSettings (files w);
     globalSettings := merge_settings (globalSettings w) newSettings;
     isProcessingBatch := isProcessingBatch w;
     isZipping := isZipping w;
     probes := probes w;
     filesToProcess_rest := filesToProcess_rest w;
     awaited := awaited w;
     random_calls := random_calls w;
     url_calls := url_calls w |}.

(** ** [processBatch] (lines 97-128) *)

Definition eligible (f : ImageFile) : bool :=
  status_eqb (status f) IDLE || status_eqb (status f) ERROR.

(** Line 101: the snapshot the loop iterates over. *)
Definition filesToProcess (files : list ImageFile) : list ImageFile :=
  filter eligible files.

(** Line 105 *)
Definition mark_processing (file : ImageFile) (prev : list ImageFile)
  : list ImageFile :=
  update_by_id (id file) (fun f => with_status f PROCESSING) prev.

(** Lines 112-116 *)
Definition mark_completed (file : ImageFile) (resultUrl : string)
  (prev : list ImageFile) : list ImageFile :=
  update_by_id (id file) (fun f => with_completed f resultUrl) prev.

(** Lines 119-123 *)
Definition mark_error (file : ImageFile) (prev : list ImageFile)
  : list ImageFile :=
  update_by_id (id file) with_error prev.

(** The [try]/[catch] around the awaited [processImage] call. *)
Definition settle (file : ImageFile) (r : Settled) (prev : list ImageFile)
  : list ImageFile :=
  match r with
  | Resolved resultUrl => mark_completed file resultUrl prev
  | Rejected => mark_error file prev
  end.

(** One iteration of the [for ... of] loop, run without interruption. *)
Definition process_one (processImage : ImageFile -> Settled)
  (file : ImageFile) (prev : list ImageFile) : list ImageFile :=
  settle file (processImage file) (mark_processing file prev).

Definition process_all (processImage : ImageFile -> Settled)
  (todo : list ImageFile) (prev : list ImageFile) : list ImageFile :=
  fold_left (fun acc file => process_one processImage file acc) todo prev.

(** The file list after a whole run during which nothing else happens. *)
Definition processBatch_files (processImage : ImageFile -> Settled)
  (files : list ImageFile) : list ImageFile :=
  process_all processImage (filesToProcess files) files.

(** Every file list the run passes through: the result of each [setFiles]
    call of the loop, in order. *)
Fixpoint batch_trace (processImage : ImageFile -> Settled)
  (todo : list ImageFile) (prev : list ImageFile) : list (list ImageFile) :=
  match todo with
  | [] => []
  | file :: rest =>
      let s1 := mark_processing file prev in
      let s2 := settle file (processImage file) s1 in
      s1 :: s2 :: batch_trace processImage rest s2
  end.

Definition processBatch_trace (processImage : ImageFile -> Settled)
  (files : list ImageFile) : list (list ImageFile) :=
  batch_trace processImage (filesToProcess files) files.

Definition count_status (s : ProcessingStatus) (files : list ImageFile)
  : nat :=
  length (filter (fun f => status_eqb (status f) s) files).

(** The same run as a coroutine that is suspended at each [await]. *)

(** The head of the loop: start the next iteration, or leave the loop and
    run line 127. *)
Definition batch_advance (w : World) : World :=
  match filesToProcess_rest w with
  | [] =>
      {| files := files w;
         globalSettings := globalSettings w;
         isProcessingBatch := false;
         isZipping := isZipping w;
         probes := probes w;
         filesToProcess_rest := [];
         awaited := None;
         random_calls := random_calls w;
         url_calls := url_calls w |}
  | file :: rest =>
      {| files := mark_processing file (files w);
         globalSettings := globalSettings w;
         isProcessingBatch := isProcessingBatch w;
         isZipping := isZipping w;
         probes := probes w;
         filesToProcess_rest := rest;
         awaited := Some file;
         random_calls := random_calls w;
         url_calls := url_calls w |}
  end.

Definition all_completed (files : list ImageFile) : bool :=
  forallb (fun f => status_eqb (status f) COMPLETED) files.

(** A click on "Upscale All"; the button is disabled by line 304. *)
Definition processBatch_click (w : World) : World :=
  if isProcessingBatch w || all_completed (files w) then w
  else
    batch_advance
      {| files := files w;
         globalSettings := globalSettings w;
         isProcessingBatch := true;
         isZipping := isZipping w;
         probes := probes w;
         filesToProcess_rest := filesToProcess (files w);
         awaited := None;
         random_calls := random_calls w;
         url_calls := url_calls w |}.

(** The pending [processImage] promise settles and the loop goes on to its
    next [await]. *)
Definition processImage_settled (r : Settled) (w : World) : World :=
  match awaited w with
  | None => w
  | Some file =>
      batch_advance
        {| files := settle file r (files w);
           globalSettings := globalSettings w;
           isProcessingBatch := isProcessingBatch w;
           isZipping := isZipping w;
           probes := probes w;
           filesToProcess_rest := filesToProcess_rest w;
           awaited := None;
           random_calls := random_calls w;
           url_calls := url_calls w |}
  end.

(** ** [downloadAllZip] (lines 130-164) *)

(** JavaScript truthiness of an optional string. *)
Definition truthy (s : option string) : bool :=
  match s with
  | Some (String _ _) => true
  | _ => false
  end.

Definition exportable (f : ImageFile) : bool :=
  status_eqb (status f) COMPLETED && truthy (processedUrl f).

Definition is_slash_or_dot (c : ascii) : bool :=
  Ascii.eqb c "/" || Ascii.eqb c ".".

Fixpoint no_slash_or_dot (s : string) : bool :=
  match s with
  | EmptyString => true
  | String c r => negb (is_slash_or_dot c) && no_slash_or_dot r
  end.

(** [s.replace(/\.[^/.]+$/, '')]: the leftmost position at which a dot is
    followed by one or more characters other than slash and dot, up to the
    end of the string, is where the string is cut. *)
Fixpoint strip_extension (s : string) : string :=
  match s with
  | EmptyString => EmptyString
  | String c r =>
      if Ascii.eqb c "." && negb (String.eqb r EmptyString) && no_slash_or_dot r
      then EmptyString
      else String c (strip_extension r)
  end.

Definition export_name (f : ImageFile) : string :=
  (strip_extension (originalName f) ++ "_UPSCALED.png")%string.

(** The loop of lines 139-145: [None] when a fetch rejects, otherwise the
    [zip.file] calls in order. *)
Fixpoint zip_entries (env : Env) (completedFiles : list ImageFile)
  : option (list (string * Blob)) :=
  match completedFiles with
  | [] => Some []
  | f :: rest =>
      match processedUrl f with
      | Some (String c u) =>
          match fetch_blob env (String c u) with
          | None => None
          | Some blob =>
              match zip_entries env rest with
              | None => None
              | Some entries => Some ((export_name f, blob) :: entries)
              end
          end
      | _ => zip_entries env rest
      end
  end.

Inductive ExportOutcome : Type :=
  | NothingToExport
  | Downloaded (download : string) (entries : list (string * Blob))
  | ZipFailed.

Definition downloadAllZip (env : Env) (w : World) : World * ExportOutcome :=
  let completedFiles := filter exportable (files w) in
  if length completedFiles =? 0 then (w, NothingToExport)
  else
    match zip_entries env completedFiles with
    | Some entries =>
        ({| files := files w;
            globalSettings := globalSettings w;
            isProcessingBatch := isProcessingBatch w;
            isZipping := false;
            probes := probes w;
            filesToProcess_rest := filesToProcess_rest w;
            awaited := awaited w;
            random_calls := random_calls w;
            url_calls := S (url_calls w) |},
         Downloaded
           ("UltraArt_Batch_" ++ substring 0 10 (toISOString_now env)
              ++ ".zip")%string
           entries)
    | None =>
        ({| files := files w;
            globalSettings := globalSettings w;
            isProcessingBatch := isProcessingBatch w;
            isZipping := false;
            probes := probes w;
            filesToProcess_rest := filesToProcess_rest w;
            awaited := awaited w;
            random_calls := random_calls w;
            url_calls := url_calls w |},
         ZipFailed)
    end.

(** ** The component as a transition system *)

Inductive Event : Type :=
  | EvHandleFiles (newFiles : option (list File))
  | EvImgOnload (k w h : nat)
  | EvUpdateGlobalSettings (newSettings : PartialSettings)
  | EvUpdateFileSettings (i : string) (newSettings : PartialSettings)
  | EvUpdateFileAnalysis (i : string) (a : string)
  | EvRemoveFile (i : string)
  | EvClearAll
  | EvProcessBatch
  | EvProcessImageSettled (r : Settled)
  | EvDownloadAllZip.

Definition step (env : Env) (w : World) (e : Event) : World :=
  match e with
  | EvHandleFiles newFiles => handleFiles env newFiles w
  | EvImgOnload k wd ht => img_onload k wd ht w
  | EvUpdateGlobalSettings d => updateGlobalSettings d w
  | EvUpdateFileSettings i d => setFiles (updateFileSettings i d) w
  | EvUpdateFileAnalysis i a => setFiles (updateFileAnalysis i a) w
  | EvRemoveFile i => setFiles (removeFile i) w
  | EvClearAll => setFiles (fun _ => []) w
  | EvProcessBatch => processBatch_click w
  | EvProcessImageSettled r => processImage_settled r w
  | EvDownloadAllZip => fst (downloadAllZip env w)
  end.

Definition run (env : Env) (events : list Event) (w : World) : World :=
  fold_left (step env) events w.

(** A state the component can be in. *)
Definition reachable (env : Env) (w : World) : Prop :=
  exists events, w = run env events initial_world.

(** Output present if and only if the item is COMPLETED. *)
Definition output_iff_completed (f : ImageFile) : Prop :=
  processedUrl f <> None <-> status f = COMPLETED.

(** ** Resampler

    [services/imageProcessor.ts] is not among the sources at hand. *)

Record Pixel : Type := mkPixel {
  red : nat;
  green : nat;
  blue : nat;
  alpha : nat
}.

(** A decoded raster, row after row. *)
Record Raster : Type := mkRaster {
  raster_width : nat;
  raster_height : nat;
  pixels : list Pixel
}.

Definition valid_raster (r : Raster) : bool :=
  (0 <? raster_width r) && (0 <? raster_height r)
  && (length (pixels r) =? raster_width r * raster_height r).

(** An interpolation kernel: style flag, source, factor and the output
    coordinates [x], [y] give the output pixel. *)
Definition Kernel : Type := bool -> Raster -> nat -> nat -> nat -> Pixel.

Inductive Resampled : Type :=
  | Upscaled (out : Raster)
  | DecodeError.

(** Modelled from the spec: the Resampler of section 4.2, whose code is
    missing.  A source that does not decode or has a zero dimension fails
    with [DecodeError]; factor 1 passes the source through; any other
    factor yields a raster of [width * factor] by [height * factor] pixels,
    each computed by the kernel the style flag selects.  The document does
    not fix the kernels, so they are a parameter. *)
Definition resample (kernel : Kernel) (src : Raster) (factor : UpscaleFactor)
  (style : bool) : Resampled :=
  if negb (valid_raster src) then DecodeError
  else
    match factor with
    | NONE => Upscaled src
    | _ =>
        let f := factor_value factor in
        let w := raster_width src * f in
        let h := raster_height src * f in
        Upscaled
          {| raster_width := w;
             raster_height := h;
             pixels := map (fun k => kernel style src f (k mod w) (k / w))
                           (seq 0 (w * h)) |}
    end.

(** Pixel replication, the simplest sharp kernel. *)
Definition nearest_neighbour : Kernel :=
  fun _ src f x y =>
    nth ((y / f) * raster_width src + x / f) (pixels src)
        (mkPixel 0 0 0 0).

(** ** Vocabulary of the statements *)

Definition raises (processImage : ImageFile -> Settled) (f : ImageFile)
  : bool :=
  match processImage f with
  | Rejected => true
  | Resolved _ => false
  end.

(** What a run makes of an item it selected, when no other item shares its
    identifier. *)
Definition item_outcome (processImage : ImageFile -> Settled)
  (f : ImageFile) : ImageFile :=
  match processImage f with
  | Resolved resultUrl => with_completed f resultUrl
  | Rejected => with_error f
  end.

Definition has_id (i : string) (f : ImageFile) : bool := String.eqb (id f) i.

Definition selected (todo : list ImageFile) (f : ImageFile) : bool :=
  existsb (has_id (id f)) todo.

(** The first [n] draws of the generator give [n] different identifiers. *)
Definition collision_free (env : Env) (n : nat) : Prop :=
  forall j k, j < n -> k < n -> fresh_id env j = fresh_id env k -> j = k.

Definition drawn_before (env : Env) (n : nat) (i : string) : Prop :=
  exists k, k < n /\ i = fresh_id env k.

Definition awaited_ids (w : World) : list string :=
  match awaited w with
  | Some t => [id t]
  | None => []
  end.

(** The invariant of the transition system under a collision-free
    generator. *)
Record Consistent (env : Env) (w : World) : Prop := mkConsistent {
  ids_drawn :
    Forall (drawn_before env (random_calls w))
           (map id (files w) ++ awaited_ids w
              ++ map id (filesToProcess_rest w));
  ids_distinct : NoDup (map id (files w));
  outputs_ok : Forall output_iff_completed (files w);
  todo_distinct :
    NoDup (awaited_ids w ++ map id (filesToProcess_rest w));
  todo_eligible :
    forall t g, In t (filesToProcess_rest w) -> In g (files w) ->
                id g = id t -> eligible g = true;
  processing_awaited :
    forall g, In g (files w) ->
              (status g = PROCESSING <-> In (id g) (awaited_ids w));
  awaited_running :
    isProcessingBatch w = false ->
    awaited w = None /\ filesToProcess_rest w = []
}.

(** Two items that differ at most in status and output. *)
Definition same_apart_from_outcome (f g : ImageFile) : Prop :=
  with_completed g EmptyString = with_completed f EmptyString.

(** ** Sample data *)

Definition png (n : string) : File :=
  {| name := n; type := "image/png"; size := 2048 |}.

Definition sample_urls (k : nat) : string :=
  match k with
  | 0 => "blob:app/0"
  | 1 => "blob:app/1"
  | 2 => "blob:app/2"
  | _ => "blob:app/n"
  end.

(** A generator whose first draws differ. *)
Definition env_ok : Env :=
  {| MAX_FILES := 3;
     random36 := fun k =>
       match k with
       | 0 => "0.4fzyo82mvyr"
       | 1 => "0.x8q3k1c7adw"
       | 2 => "0.k2j5h9d0pqz"
       | _ => "0.i"
       end;
     createObjectURL := sample_urls;
     fetch_blob := fun u => Some ("bytes of " ++ u)%string;
     toISOString_now := "2024-05-17T09:30:00.000Z" |}.

(** A generator that returns one half twice: [(0.5).toString(36)] is
    ["0.i"]. *)
Definition env_collision : Env :=
  {| MAX_FILES := 3;
     random36 := fun _ => "0.i";
     createObjectURL := sample_urls;
     fetch_blob := fun _ => None;
     toISOString_now := "2024-05-17T09:30:00.000Z" |}.

Definition item (i n : string) (s : ProcessingStatus) : ImageFile :=
  {| id := i; file := png n; originalName := n;
     previewUrl := ("blob:app/" ++ i)%string; status := s;
     settings := DEFAULT_SETTINGS; width := 16; height := 16;
     processedUrl := None; error := None; analysis := None |}.

Definition only_dpi (d : DpiOutput) : PartialSettings :=
  {| upscaleFactor_opt := None; dpi_opt := Some d;
     preserveStyle_opt := None; enabled_opt := None |}.

Definition world_of (fs : list ImageFile) : World :=
  {| files := fs;
     globalSettings := DEFAULT_SETTINGS;
     isProcessingBatch := false;
     isZipping := false;
     probes := [];
     filesToProcess_rest := [];
     awaited := None;
     random_calls := 0;
     url_calls := 0 |}.

(** [processImage] fails on the file named [bad] and succeeds on every
    other one. *)
Definition fails_on (bad : string) (f : ImageFile) : Settled :=
  if String.eqb (originalName f) bad then Rejected
  else Resolved ("blob:out/" ++ originalName f)%string.

Definition always_succeeds (f : ImageFile) : Settled :=
  Resolved ("blob:out/" ++ originalName f)%string.

(** Two images submitted at once while the generator repeats itself. *)
Definition twins : list ImageFile :=
  files (handleFiles env_collision (Some [png "a.png"; png "b.png"])
           initial_world).

(** The same submission followed by a click on "Upscale All" and the
    first [processImage] call resolving. *)
Definition twins_events : list Event :=
  [EvHandleFiles (Some [png "a.png"; png "b.png"]);
   EvProcessBatch;
   EvProcessImageSettled (Resolved "blob:out/a.png")].

(** The events of a run that nothing interrupts: the click, then one
    settled promise per selected item. *)
Definition settle_events (processImage : ImageFile -> Settled)
  (todo : list ImageFile) : list Event :=
  map (fun t => EvProcessImageSettled (processImage t)) todo.

(** One image is submitted and removed, a second one is submitted while
    the generator repeats itself; the probe of the first is still
    pending. *)
Definition late_probe_events : list Event :=
  [EvHandleFiles (Some [png "a.png"]);
   EvRemoveFile "i";
   EvHandleFiles (Some [png "b.png"])].

(** ** [ImageCard]: what a card shows for an item (second component of the
    source, lines 395-522) *)


Definition isComplete (image : ImageFile) : bool :=
  status_eqb (status image) COMPLETED.

(** [getDownloadFilename] (lines 421-424) *)
Definition getDownloadFilename (image : ImageFile) : string :=
  (strip_extension (originalName image) ++ "_UPSCALED.png")%string.

(** The [src] of the thumbnail (line 440). *)
Definition thumbnail_src (image : ImageFile) : string :=
  match processedUrl image with
  | Some (String c u) =>
      if isComplete image then String c u else previewUrl image
  | _ => previewUrl image
  end.


(** A JavaScript string as the sequence of its UTF-16 code units, which
    is what [length] counts and [substring] cuts. *)
Definition CodeUnits : Type := list nat.

(** ["..."] *)
Definition three_dots : CodeUnits := [46; 46; 46].

(** The text of the analysis badge (line 478):
    [analysis.substring(0, 50)] followed by the dots when
    [analysis.length > 50]. *)
Definition analysis_badge (a : CodeUnits) : CodeUnits :=
  firstn 50 a ++ (if 50 <? length a then three_dots else []).



Definition shows_processed (image : ImageFile) : bool :=
  negb (truthy (analysis image)) && isComplete image.

(** Lines 510-518: the SAVE link and its [href]. *)
Definition shows_save (image : ImageFile) : bool := isComplete image.

Definition save_href (image : ImageFile) : option string :=
  processedUrl image.

(** [Math.round(image.file.size / 1024)] (line 460): the quotient is exact
    in floating point, and [Math.round] rounds a half upwards. *)
Definition size_kb (image : ImageFile) : nat :=
  (size (file image) + 512) / 1024.


(** ** Vocabulary of the further properties *)

(** The part of an item that is fixed at submission. *)
Definition source_of (f : ImageFile) : string * File * string * string :=
  (id f, file f, originalName f, previewUrl f).

(** The part of an item the batch run writes. *)
Definition outcome_of (f : ImageFile)
  : ProcessingStatus * option string * option string :=
  (status f, processedUrl f, error f).

(** The part of an item the user edits or the probes fill in. *)
Definition editable_of (f : ImageFile)
  : ImageSettings * nat * nat * option string :=
  (settings f, width f, height f, analysis f).

(** What the code keeps true of every item, whatever the identifiers. *)
Definition lifecycle_ok (f : ImageFile) : Prop :=
  (status f = COMPLETED -> processedUrl f <> None) /\
  (status f = ERROR -> error f = Some "Processing failed") /\
  (status f = IDLE -> processedUrl f = None /\ error f = None).

Definition is_settled_event (e : Event) : bool :=
  match e with
  | EvProcessImageSettled _ => true
  | _ => false
  end.

Definition is_click_event (e : Event) : bool :=
  match e with
  | EvProcessBatch => true
  | _ => false
  end.

Definition is_batch_event (e : Event) : bool :=
  is_click_event e || is_settled_event e.

Definition is_file_settings_event (e : Event) : bool :=
  match e with
  | EvUpdateFileSettings _ _ => true
  | _ => false
  end.

(** The [processImage] calls a suspended run still has to wait for. *)
Definition pending_calls (w : World) : nat :=
  length (awaited_ids w) + length (filesToProcess_rest w).

(** The busy flag is up exactly while a [processImage] promise is
    pending, and nothing is queued behind a promise that is not there. *)
Definition busy_iff_pending (w : World) : Prop :=
  (isProcessingBatch w = true <-> awaited w <> None) /\
  (awaited w = None -> filesToProcess_rest w = []).

(** A partial update without keys: [{}]. *)
Definition no_keys : PartialSettings :=
  {| upscaleFactor_opt := None; dpi_opt := None;
     preserveStyle_opt := None; enabled_opt := None |}.

(** Every IDLE item carries the batch defaults. *)
Definition mirrors_defaults (w : World) : Prop :=
  Forall (fun f => status f = IDLE -> settings f = globalSettings w)
         (files w).

(** Events that only edit items in place or read them. *)
Definition is_edit_event (e : Event) : bool :=
  match e with
  | EvImgOnload _ _ _ | EvUpdateGlobalSettings _
  | EvUpdateFileSettings _ _ | EvUpdateFileAnalysis _ _
  | EvDownloadAllZip => true
  | _ => false
  end.

Definition count_settled (events : list Event) : nat :=
  length (filter is_settled_event events).

(** [{ ...d1, ...d2 }] on two partial updates: the keys of the second
    laid over those of the first. *)
Definition spread_partial (d1 d2 : PartialSettings) : PartialSettings :=
  {| upscaleFactor_opt :=
       match upscaleFactor_opt d2 with
       | Some v => Some v
       | None => upscaleFactor_opt d1
       end;
     dpi_opt :=
       match dpi_opt d2 with Some v => Some v | None => dpi_opt d1 end;
     preserveStyle_opt :=
       match preserveStyle_opt d2 with
       | Some v => Some v
       | None => preserveStyle_opt d1
       end;
     enabled_opt :=
       match enabled_opt d2 with
       | Some v => Some v
       | None => enabled_opt d1
       end |}.

Definition is_submission_event (e : Event) : bool :=
  match e with
  | EvHandleFiles _ => true
  | _ => false
  end.

(** The output URL of an item, the empty string when there is none. *)
Definition url_of (f : ImageFile) : string :=
  match processedUrl f with
  | Some u => u
  | None => EmptyString
  end.

(** ** [SettingsPanel] (third component of the source, lines 346-394) *)

(** The click handler of a factor button: [onUpdate({ upscaleFactor })]. *)
Definition choose_factor (factor : UpscaleFactor) : PartialSettings :=
  {| upscaleFactor_opt := Some factor; dpi_opt := None;
     preserveStyle_opt := None; enabled_opt := None |}.

(** The change handler of the select: [onUpdate({ dpi: Number(value) })]. *)
Definition choose_dpi (value : DpiOutput) : PartialSettings :=
  {| upscaleFactor_opt := None; dpi_opt := Some value;
     preserveStyle_opt := None; enabled_opt := None |}.

Definition factor_eqb (a b : UpscaleFactor) : bool :=
  match a, b with
  | NONE, NONE | X2, X2 | X4, X4 | X8, X8 => true
  | _, _ => false
  end.

(** The highlighted button: [settings.upscaleFactor === factor]. *)
Definition factor_button_active (s : ImageSettings) (factor : UpscaleFactor)
  : bool :=
  factor_eqb (upscaleFactor s) factor.

(** An item the step left in the list with its identifier. *)
Ltac unchanged_item x :=
  let H := fresh "Hin" in
  intros H; left; exists x; split; [exact H | reflexivity].

(** * Properties *)

Lemma status_eqb_spec (a b : ProcessingStatus) :
  reflect (a = b) (status_eqb a b).
Proof. destruct a, b; simpl; constructor; congruence. Qed.

Lemma status_eqb_eq (a b : ProcessingStatus) :
  status_eqb a b = true <-> a = b.
Proof. destruct (status_eqb_spec a b); split; congruence. Qed.

(** ** Settings propagation *)

Lemma apply_to_idle_length d fs : length (apply_to_idle d fs) = length fs.
Proof. unfold apply_to_idle. apply length_map. Qed.

(** C2. After [updateGlobalSettings d] the shared defaults are merged with
    [d], the list keeps its length, and the item at every position is the
    one that was there, with its settings merged with [d] when it is IDLE
    and untouched when it is PROCESSING, COMPLETED or ERROR. *)
Theorem updateGlobalSettings_propagates
  (d : PartialSettings) (w : World) (k : nat) (f : ImageFile) :
  nth_error (files w) k = Some f ->
  globalSettings (updateGlobalSettings d w)
    = merge_settings (globalSettings w) d /\
  length (files (updateGlobalSettings d w)) = length (files w) /\
  exists f',
    nth_error (files (updateGlobalSettings d w)) k = Some f' /\
    with_settings f' (settings f) = f /\
    (status f = IDLE -> settings f' = merge_settings (settings f) d) /\
    (status f = PROCESSING \/ status f = COMPLETED \/ status f = ERROR ->
     f' = f).
Proof.
  intros Hk. split; [reflexivity|]. split; [apply apply_to_idle_length|].
  simpl. unfold apply_to_idle. rewrite nth_error_map, Hk. simpl.
  eexists. split; [reflexivity|].
  destruct f as [i fl n p s st wd ht u e a].
  destruct s; simpl; repeat split; try reflexivity;
    intros H; try discriminate H;
    destruct H as [H|[H|H]]; discriminate H.
Qed.

Lemma updateGlobalSettings_propagates_witness :
  exists f',
    nth_error
      (files (updateGlobalSettings (only_dpi 150)
                (world_of [item "a" "a.png" IDLE; item "b" "b.png" ERROR])))
      0 = Some f' /\ dpi (settings f') = 150.
Proof.
  destruct (updateGlobalSettings_propagates (only_dpi 150)
              (world_of [item "a" "a.png" IDLE; item "b" "b.png" ERROR])
              0 (item "a" "a.png" IDLE) eq_refl)
    as (_ & _ & f' & Hn & _ & Hidle & _).
  exists f'. split; [exact Hn|]. rewrite (Hidle eq_refl). reflexivity.
Defined.

(** ** Submission *)

Lemma new_items_length env gs r u fl :
  length (new_items env gs r u fl) = length fl.
Proof.
  revert r u. induction fl as [|f fl IH]; intros r u; simpl;
    [reflexivity | now rewrite IH].
Qed.

Lemma new_items_file env gs r u fl :
  map file (new_items env gs r u fl) = fl.
Proof.
  revert r u. induction fl as [|f fl IH]; intros r u; simpl;
    [reflexivity | now rewrite IH].
Qed.

Lemma new_items_fresh env gs r u fl :
  Forall (fun f => status f = IDLE /\ processedUrl f = None /\
                   error f = None /\ settings f = gs /\
                   width f = 0 /\ height f = 0)
         (new_items env gs r u fl).
Proof.
  revert r u. induction fl as [|f fl IH]; intros r u; simpl;
    constructor; simpl; auto 10.
Qed.

Lemma new_items_ids env gs r u fl :
  map id (new_items env gs r u fl)
    = map (fresh_id env) (seq r (length fl)).
Proof.
  revert r u. induction fl as [|f fl IH]; intros r u; simpl;
    [reflexivity | now rewrite IH].
Qed.

Lemma filter_all {A} (p : A -> bool) (l : list A) :
  Forall (fun x => p x = true) l -> filter p l = l.
Proof.
  induction 1 as [|x l Hx _ IH]; simpl; [reflexivity|].
  now rewrite Hx, IH.
Qed.

(** Whatever the incoming list holds, the capacity test counts its images
    only. *)
Lemma handleFiles_capacity env incoming w :
  (MAX_FILES env < length (files w) + length (filter is_image incoming) ->
   handleFiles env (Some incoming) w = w) /\
  (length (files w) + length (filter is_image incoming) <= MAX_FILES env ->
   files (handleFiles env (Some incoming) w)
     = files w ++ new_items env (globalSettings w) (random_calls w)
                            (url_calls w) (filter is_image incoming)).
Proof.
  unfold handleFiles. split; intros H.
  - apply Nat.ltb_lt in H. now rewrite H.
  - apply Nat.ltb_ge in H. now rewrite H.
Qed.

(** C5. For a list of [k] items and [n] incoming images: when [k + n]
    exceeds [MAX_FILES] the component is left exactly as it was; otherwise
    the list becomes the old one followed by [n] new items, one per
    incoming image and in their order, each IDLE, without output, with
    the current defaults as settings. *)
Theorem handleFiles_all_or_nothing
  (env : Env) (incoming : list File) (w : World) :
  Forall (fun f => is_image f = true) incoming ->
  (MAX_FILES env < length (files w) + length incoming ->
   handleFiles env (Some incoming) w = w) /\
  (length (files w) + length incoming <= MAX_FILES env ->
   exists added,
     files (handleFiles env (Some incoming) w) = files w ++ added /\
     length added = length incoming /\
     map file added = incoming /\
     Forall (fun f => status f = IDLE /\ processedUrl f = None /\
                      settings f = globalSettings w) added).
Proof.
  intros Himg.
  destruct (handleFiles_capacity env incoming w) as [Hrej Hadm].
  rewrite (filter_all _ _ Himg) in Hrej, Hadm.
  split; [exact Hrej|]. intros Hle.
  exists (new_items env (globalSettings w) (random_calls w) (url_calls w)
                    incoming).
  split; [exact (Hadm Hle)|].
  split; [apply new_items_length|].
  split; [apply new_items_file|].
  eapply Forall_impl; [|apply new_items_fresh]. simpl. tauto.
Qed.

Lemma handleFiles_all_or_nothing_witness :
  handleFiles env_ok (Some [png "d.png"])
    (world_of [item "a" "a.png" IDLE; item "b" "b.png" IDLE;
               item "c" "c.png" COMPLETED])
  = world_of [item "a" "a.png" IDLE; item "b" "b.png" IDLE;
              item "c" "c.png" COMPLETED]
  /\ length (files (handleFiles env_ok (Some [png "d.png"; png "e.png"])
                      (world_of [item "a" "a.png" IDLE]))) = 3.
Proof.
  split.
  - apply (handleFiles_all_or_nothing env_ok [png "d.png"]
             (world_of [item "a" "a.png" IDLE; item "b" "b.png" IDLE;
                        item "c" "c.png" COMPLETED])).
    + repeat constructor.
    + simpl. lia.
  - destruct (handleFiles_all_or_nothing env_ok
                [png "d.png"; png "e.png"]
                (world_of [item "a" "a.png" IDLE])) as [_ H].
    + repeat constructor.
    + destruct H as (added & Hf & Hlen & _); [simpl; lia|].
      rewrite Hf, length_app, Hlen. reflexivity.
Defined.

(** ** Dimension probes and removal *)

Lemma update_by_id_absent i g prev :
  (forall f, In f prev -> id f <> i) -> update_by_id i g prev = prev.
Proof.
  intros H. unfold update_by_id.
  rewrite <- (map_id prev) at 2. apply map_ext_in.
  intros f Hf. destruct (String.eqb_spec (id f) i) as [E|E];
    [destruct (H f Hf E) | reflexivity].
Qed.

Lemma removeFile_absent i prev f : In f (removeFile i prev) -> id f <> i.
Proof.
  unfold removeFile. rewrite filter_In. intros [_ H] E.
  rewrite E, String.eqb_refl in H. discriminate H.
Qed.

Lemma update_by_id_length i g prev :
  length (update_by_id i g prev) = length prev.
Proof. apply length_map. Qed.

(** A probe that resolves for identifier [i] rewrites the list by
    identity lookup: every item with identifier [i] gets the decoded
    width and height and keeps everything else, no item with another
    identifier changes, and the length of the list is kept.  When no item
    of the list has identifier [i], the list is left exactly as it is;
    this is the case right after [removeFile i], also at the level of the
    component, where the probe is a callback that is still pending when
    the item is removed. *)
Lemma probe_resolved_by_identity
  (i : string) (wd ht : nat) (prev : list ImageFile) :
  ((forall f, In f prev -> id f <> i) ->
   probe_resolved i wd ht prev = prev) /\
  probe_resolved i wd ht (removeFile i prev) = removeFile i prev /\
  length (probe_resolved i wd ht prev) = length prev /\
  (forall k f, nth_error prev k = Some f -> id f <> i ->
               nth_error (probe_resolved i wd ht prev) k = Some f) /\
  (forall w k, nth_error (probes w) k = Some i ->
     files (img_onload k wd ht (setFiles (removeFile i) w))
       = removeFile i (files w)) /\
  (forall k f, nth_error prev k = Some f -> id f = i ->
     exists g,
       nth_error (probe_resolved i wd ht prev) k = Some g /\
       width g = wd /\ height g = ht /\
       source_of g = source_of f /\ outcome_of g = outcome_of f /\
       settings g = settings f /\ analysis g = analysis f).
Proof.
  assert (H : probe_resolved i wd ht (removeFile i prev)
              = removeFile i prev).
  { apply update_by_id_absent. intros f. apply removeFile_absent. }
  split; [apply update_by_id_absent|].
  split; [exact H|]. split; [apply update_by_id_length|]. split; [|split].
  - intros k f Hk Hne. unfold probe_resolved, update_by_id.
    rewrite nth_error_map, Hk. simpl.
    destruct (String.eqb_spec (id f) i); [contradiction | reflexivity].
  - intros w k Hk. unfold img_onload. simpl. rewrite Hk. simpl.
    apply update_by_id_absent. intros f. apply removeFile_absent.
  - intros k f Hk Eid. unfold probe_resolved, update_by_id.
    rewrite nth_error_map, Hk. simpl.
    rewrite Eid, String.eqb_refl. eexists. split; [reflexivity|].
    simpl. repeat split; reflexivity.
Qed.

Example probe_resolved_by_identity_sample :
  probe_resolved "a" 640 480 [item "b" "b.png" IDLE; item "c" "c.png" ERROR]
  = [item "b" "b.png" IDLE; item "c" "c.png" ERROR]
  /\ map (fun f => (id f, width f, height f))
         (probe_resolved "a" 640 480
            [item "a" "a.png" IDLE; item "b" "b.png" IDLE])
     = [("a", 640, 480); ("b", 16, 16)].
Proof.
  split; [|reflexivity].
  apply (proj1 (probe_resolved_by_identity "a" 640 480
                  [item "b" "b.png" IDLE; item "c" "c.png" ERROR])).
  intros f [<-|[<-|[]]]; discriminate.
Qed.

(** ** Export *)

Lemma zip_entries_fetch_fails env l f u :
  In f l -> truthy (processedUrl f) = true -> processedUrl f = Some u ->
  fetch_blob env u = None -> zip_entries env l = None.
Proof.
  intros Hin Ht Hu Hfetch. induction l as [|g l IH]; [destruct Hin|].
  simpl. destruct Hin as [->|Hin].
  - rewrite Hu in *. destruct u as [|c u]; [discriminate Ht|].
    now rewrite Hfetch.
  - rewrite (IH Hin). destruct (processedUrl g) as [[|c v]|]; try reflexivity.
    now destruct (fetch_blob env (String c v)).
Qed.

Lemma downloadAllZip_files env w :
  files (fst (downloadAllZip env w)) = files w.
Proof.
  unfold downloadAllZip.
  destruct (length (filter exportable (files w)) =? 0); [reflexivity|].
  now destruct (zip_entries env (filter exportable (files w))).
Qed.

(** C4. [downloadAllZip] never changes the file list, whatever its
    outcome.  When the fetch of the output of some item selected for export
    rejects, the outcome is the failure and not a download.  A later export
    sees exactly what the first one saw, so it can be retried. *)
Theorem downloadAllZip_atomic (env : Env) (w : World) :
  files (fst (downloadAllZip env w)) = files w /\
  (forall f u,
     In f (files w) -> exportable f = true -> processedUrl f = Some u ->
     fetch_blob env u = None ->
     snd (downloadAllZip env w) = ZipFailed) /\
  (forall env',
     snd (downloadAllZip env' (fst (downloadAllZip env w)))
       = snd (downloadAllZip env' w)).
Proof.
  split; [apply downloadAllZip_files|]. split.
  - intros f u Hin Hex Hu Hfetch.
    assert (Hsel : In f (filter exportable (files w)))
      by (apply filter_In; split; assumption).
    unfold downloadAllZip.
    destruct (filter exportable (files w)) as [|g l] eqn:E;
      [destruct Hsel|].
    simpl length. simpl Nat.eqb. cbv iota.
    rewrite (zip_entries_fetch_fails env (g :: l) f u); try assumption.
    + reflexivity.
    + unfold exportable in Hex. apply andb_true_iff in Hex. apply Hex.
  - intros env'. unfold downloadAllZip at 1 3.
    rewrite downloadAllZip_files.
    destruct (length (filter exportable (files w)) =? 0); [reflexivity|].
    destruct (zip_entries env' (filter exportable (files w)));
      reflexivity.
Qed.

Lemma downloadAllZip_atomic_witness :
  snd (downloadAllZip env_collision
         (world_of [with_completed (item "a" "a.png" IDLE) "blob:out/a"]))
  = ZipFailed.
Proof.
  apply (proj1 (proj2 (downloadAllZip_atomic env_collision
           (world_of [with_completed (item "a" "a.png" IDLE) "blob:out/a"])))
           (with_completed (item "a" "a.png" IDLE) "blob:out/a")
           "blob:out/a");
    [left; reflexivity | reflexivity | reflexivity | reflexivity].
Defined.

(** ** Resampler *)

(** C9. For a source raster that decodes, of size [w] by [h], and every
    factor of the enumeration, the Resampler succeeds with a raster of
    width [w * factor] and height [h * factor] holding that many pixels;
    with factor 1 the result is the source itself. *)
Theorem resample_dimensions
  (kernel : Kernel) (src : Raster) (factor : UpscaleFactor) (style : bool) :
  valid_raster src = true ->
  exists out,
    resample kernel src factor style = Upscaled out /\
    raster_width out = raster_width src * factor_value factor /\
    raster_height out = raster_height src * factor_value factor /\
    length (pixels out) = raster_width out * raster_height out /\
    (factor = NONE -> out = src).
Proof.
  intros Hv. unfold resample. rewrite Hv. simpl negb. cbv iota.
  unfold valid_raster in Hv.
  apply andb_true_iff in Hv. destruct Hv as [Hv Hlen].
  apply Nat.eqb_eq in Hlen.
  destruct factor; eexists; (split; [reflexivity|]); simpl;
    repeat split; try lia; try discriminate;
    rewrite ?length_map, ?length_seq; reflexivity.
Qed.

Lemma resample_dimensions_witness :
  exists out,
    resample nearest_neighbour
      {| raster_width := 2; raster_height := 1;
         pixels := [mkPixel 255 0 0 255; mkPixel 0 0 0 0] |} X4 true
    = Upscaled out /\
    raster_width out = 8 /\ raster_height out = 4.
Proof.
  destruct (resample_dimensions nearest_neighbour
              {| raster_width := 2; raster_height := 1;
                 pixels := [mkPixel 255 0 0 255; mkPixel 0 0 0 0] |}
              X4 true eq_refl) as (out & H & Hw & Hh & _).
  exists out. repeat split; assumption.
Defined.

(** ** The batch run, item by item *)

Lemma same_apart_completed f g u :
  same_apart_from_outcome f g -> with_completed g u = with_completed f u.
Proof.
  unfold same_apart_from_outcome, with_completed. intros H.
  injection H as -> -> -> -> -> -> -> -> ->. reflexivity.
Qed.

Lemma same_apart_id f g : same_apart_from_outcome f g -> id g = id f.
Proof.
  unfold same_apart_from_outcome, with_completed. intros H.
  now injection H.
Qed.

Lemma process_one_nth p t prev k g :
  nth_error prev k = Some g ->
  nth_error (process_one p t prev) k
    = Some (if String.eqb (id g) (id t)
            then match p t with
                 | Resolved u => with_completed g u
                 | Rejected => with_error (with_status g PROCESSING)
                 end
            else g).
Proof.
  intros Hk. unfold process_one, settle, mark_processing, mark_completed,
    mark_error, update_by_id.
  destruct (p t); rewrite !nth_error_map, Hk; simpl;
    destruct (String.eqb_spec (id g) (id t)) as [E|E]; simpl;
    rewrite ?E, ?String.eqb_refl; try reflexivity;
    destruct (String.eqb_spec (id g) (id t)); congruence.
Qed.

Lemma process_one_frame p t prev k f g :
  error f = Some "Processing failed" ->
  nth_error prev k = Some g -> same_apart_from_outcome f g ->
  exists g', nth_error (process_one p t prev) k = Some g' /\
             same_apart_from_outcome f g'.
Proof.
  intros He Hk Hs. rewrite (process_one_nth p t prev k g Hk).
  eexists. split; [reflexivity|].
  destruct (String.eqb (id g) (id t)); [|exact Hs].
  assert (E : error g = Some "Processing failed").
  { rewrite <- He. unfold same_apart_from_outcome, with_completed in Hs.
    now injection Hs. }
  destruct (p t); unfold same_apart_from_outcome in *;
    rewrite <- Hs; unfold with_completed, with_error, with_status; simpl;
    rewrite ?E; reflexivity.
Qed.

Lemma batch_trace_retry p url k f :
  error f = Some "Processing failed" -> p f = Resolved url ->
  forall todo prev g,
    In f todo -> nth_error prev k = Some g ->
    same_apart_from_outcome f g ->
    exists s, In s (batch_trace p todo prev) /\
              nth_error s k = Some (with_completed f url).
Proof.
  intros He Hp. induction todo as [|t rest IH]; intros prev g Hin Hk Hs;
    [destruct Hin|].
  simpl. fold (process_one p t prev).
  destruct Hin as [->|Hin].
  - exists (process_one p f prev). split; [right; left; reflexivity|].
    rewrite (process_one_nth p f prev k g Hk), Hp.
    rewrite (same_apart_id f g Hs), String.eqb_refl.
    f_equal. now apply same_apart_completed.
  - destruct (process_one_frame p t prev k f g He Hk Hs) as (g' & Hk' & Hs').
    destruct (IH (process_one p t prev) g' Hin Hk' Hs') as (s & Hin' & Hn).
    exists s. split; [right; right; exact Hin' | exact Hn].
Qed.

(** C10. When a run selects an item that is in ERROR and carries the
    message of its failed attempt, and its [processImage] call now
    resolves, the run passes through a file list in which that item is the
    old item with only its status set to COMPLETED and its output set to
    the new URL: the message "Processing failed" is still on it. *)
Theorem retry_keeps_error_message
  (processImage : ImageFile -> Settled) (fs : list ImageFile)
  (k : nat) (f : ImageFile) (resultUrl : string) :
  nth_error fs k = Some f ->
  status f = ERROR ->
  error f = Some "Processing failed" ->
  processImage f = Resolved resultUrl ->
  exists s g,
    In s (processBatch_trace processImage fs) /\
    nth_error s k = Some g /\
    g = with_completed f resultUrl /\
    status g = COMPLETED /\
    processedUrl g = Some resultUrl /\
    error g = Some "Processing failed".
Proof.
  intros Hk Hst He Hp.
  destruct (batch_trace_retry processImage resultUrl k f He Hp
              (filesToProcess fs) fs f) as (s & Hin & Hn).
  - apply filter_In. split; [eapply nth_error_In; eassumption|].
    unfold eligible. rewrite Hst. reflexivity.
  - exact Hk.
  - reflexivity.
  - exists s, (with_completed f resultUrl).
    repeat split; try assumption.
Qed.

Lemma retry_keeps_error_message_witness :
  exists s g,
    In s (processBatch_trace always_succeeds
            [with_error (item "a" "a.png" IDLE); item "b" "b.png" IDLE]) /\
    nth_error s 0 = Some g /\
    g = with_completed (with_error (item "a" "a.png" IDLE)) "blob:out/a.png"
    /\ status g = COMPLETED
    /\ processedUrl g = Some "blob:out/a.png"
    /\ error g = Some "Processing failed".
Proof.
  apply (retry_keeps_error_message always_succeeds
           [with_error (item "a" "a.png" IDLE); item "b" "b.png" IDLE]
           0 (with_error (item "a" "a.png" IDLE)) "blob:out/a.png");
    reflexivity.
Defined.

(** ** Identifiers *)

(** C7. With a generator that returns the same number twice, the two
    items of one submission get the same identifier: the identifiers of
    the file list are not pairwise distinct. *)
Theorem handleFiles_ids_can_collide :
  map id twins = ["i"; "i"] /\ ~ NoDup (map id twins).
Proof.
  split; [reflexivity|]. intros H.
  change (map id twins) with ["i"; "i"] in H.
  inversion H as [|x l Hnotin _]. apply Hnotin. left. reflexivity.
Qed.

(** C1. On the two items that share an identifier, a run in which the
    processing of the first raises and that of the second succeeds ends
    with both items COMPLETED and none in ERROR: the failure of the first
    item is overwritten by the success of the second. *)
Theorem failure_isolation_twins :
  map (fun f => (id f, originalName f, status f)) twins
    = [("i", "a.png", IDLE); ("i", "b.png", IDLE)] /\
  length (filesToProcess twins) = 2 /\
  length (filter (raises (fails_on "a.png")) (filesToProcess twins)) = 1 /\
  map (fun f => (status f, processedUrl f, error f))
      (processBatch_files (fails_on "a.png") twins)
    = [(COMPLETED, Some "blob:out/b.png", Some "Processing failed");
       (COMPLETED, Some "blob:out/b.png", Some "Processing failed")] /\
  count_status COMPLETED (processBatch_files (fails_on "a.png") twins) = 2 /\
  count_status ERROR (processBatch_files (fails_on "a.png") twins) = 0.
Proof.
  split; [reflexivity|]. split; [reflexivity|]. split; [reflexivity|].
  split; [reflexivity|]. split; reflexivity.
Qed.

(** C3. On the two items that share an identifier, the first update of
    the run puts both of them in PROCESSING. *)
Theorem two_processing_twins :
  exists s,
    nth_error (processBatch_trace always_succeeds twins) 0 = Some s /\
    map status s = [PROCESSING; PROCESSING] /\
    count_status PROCESSING s = 2.
Proof.
  exists (mark_processing (item "i" "a.png" IDLE) twins).
  split; [reflexivity|]. split; reflexivity.
Qed.

(** C6. After the submission of the two items, a click on "Upscale All"
    and the success of the first item, the component is in a state where
    both items carry an output while their status is PROCESSING. *)
Theorem output_while_processing_twins :
  reachable env_collision (run env_collision twins_events initial_world) /\
  map (fun f => (status f, processedUrl f))
      (files (run env_collision twins_events initial_world))
    = [(PROCESSING, Some "blob:out/a.png");
       (PROCESSING, Some "blob:out/a.png")] /\
  ~ Forall output_iff_completed
      (files (run env_collision twins_events initial_world)).
Proof.
  split; [exists twins_events; reflexivity|].
  split; [reflexivity|].
  intros H. vm_compute in H. apply Forall_inv in H.
  destruct H as [H _]. discriminate H. discriminate.
Qed.

(** C8. The first image is removed before its probe fires and a second
    image is submitted with the same identifier.  When the probe of the
    removed item resolves, the list is not left as it is: the second
    item, which its own probe has not measured yet, gets the width and
    height of the first. *)
Theorem late_probe_rewrites_twin :
  reachable env_collision
    (run env_collision late_probe_events initial_world) /\
  files (run env_collision
           [EvHandleFiles (Some [png "a.png"]); EvRemoveFile "i"]
           initial_world) = [] /\
  nth_error (probes (run env_collision late_probe_events initial_world)) 0
    = Some "i" /\
  map (fun f => (id f, originalName f, width f, height f))
      (files (run env_collision late_probe_events initial_world))
    = [("i", "b.png", 0, 0)] /\
  map (fun f => (id f, originalName f, width f, height f))
      (files (img_onload 0 640 480
                (run env_collision late_probe_events initial_world)))
    = [("i", "b.png", 640, 480)] /\
  files (img_onload 0 640 480
           (run env_collision late_probe_events initial_world))
    <> files (run env_collision late_probe_events initial_world).
Proof.
  split; [exists late_probe_events; reflexivity|].
  split; [reflexivity|]. split; [reflexivity|].
  split; [reflexivity|]. split; [reflexivity|].
  intros H. apply (f_equal (map width)) in H. discriminate H.
Qed.

(** ** The run on a list whose identifiers are pairwise distinct

    The four statements above fail only through the shared identifier:
    on a list without duplicates the run has a closed form, from which
    failure isolation and the bound on PROCESSING follow. *)

Lemma NoDup_map_inj {A B} (f : A -> B) (l : list A) x y :
  NoDup (map f l) -> In x l -> In y l -> f x = f y -> x = y.
Proof.
  induction l as [|a l IH]; simpl; intros Hnd Hx Hy E; [destruct Hx|].
  inversion Hnd as [|? ? Hnotin Hnd']; subst.
  destruct Hx as [->|Hx], Hy as [->|Hy]; auto.
  - exfalso. apply Hnotin. rewrite E. now apply in_map.
  - exfalso. apply Hnotin. rewrite <- E. now apply in_map.
Qed.

Lemma NoDup_map_filter {A B} (f : A -> B) (q : A -> bool) (l : list A) :
  NoDup (map f l) -> NoDup (map f (filter q l)).
Proof.
  induction l as [|a l IH]; simpl; intros Hnd; [constructor|].
  inversion Hnd as [|? ? Hnotin Hnd']; subst.
  destruct (q a); simpl; auto.
  constructor; auto. intros Hin. apply Hnotin.
  apply in_map_iff in Hin. destruct Hin as (x & E & Hx).
  apply filter_In in Hx. apply in_map_iff. exists x. tauto.
Qed.

Lemma process_one_map p t prev :
  process_one p t prev
    = map (fun g => if has_id (id t) g
                    then match p t with
                         | Resolved u => with_completed g u
                         | Rejected => with_error g
                         end
                    else g) prev.
Proof.
  unfold process_one, settle, mark_processing, mark_completed, mark_error,
    update_by_id, has_id.
  destruct (p t); rewrite map_map; apply map_ext; intros g;
    destruct (String.eqb_spec (id g) (id t)) as [E|E]; simpl;
    rewrite ?E, ?String.eqb_refl; try reflexivity;
    destruct (String.eqb_spec (id g) (id t)); congruence.
Qed.

Lemma process_one_ids p t prev :
  map id (process_one p t prev) = map id prev.
Proof.
  rewrite process_one_map, map_map. apply map_ext. intros g.
  destruct (has_id (id t) g); [destruct (p t)|]; reflexivity.
Qed.

Lemma selected_false todo g :
  ~ In (id g) (map id todo) -> selected todo g = false.
Proof.
  intros H. unfold selected. destruct (existsb _ todo) eqn:E; [|reflexivity].
  apply existsb_exists in E. destruct E as (t & Ht & E).
  unfold has_id in E. apply String.eqb_eq in E.
  exfalso. apply H. rewrite <- E. now apply in_map.
Qed.

Lemma process_all_closed p todo :
  NoDup (map id todo) ->
  forall prev,
    (forall t g, In t todo -> In g prev -> id g = id t -> g = t) ->
    process_all p todo prev
      = map (fun g => if selected todo g then item_outcome p g else g) prev.
Proof.
  induction todo as [|t rest IH]; intros Hnd prev Hsame.
  - simpl. symmetry. apply map_id.
  - inversion Hnd as [|? ? Hnotin Hnd']; subst.
    assert (Hsame' : forall t' g', In t' rest ->
              In g' (process_one p t prev) -> id g' = id t' -> g' = t').
    { intros t' g' Ht' Hg' E.
      rewrite process_one_map in Hg'. apply in_map_iff in Hg'.
      destruct Hg' as (g & <- & Hg).
      unfold has_id in *.
      destruct (String.eqb_spec (id g) (id t)) as [E'|E'].
      - exfalso. apply Hnotin.
        assert (H : id t' = id t) by (destruct (p t); simpl in E; congruence).
        rewrite <- H. now apply in_map.
      - apply (Hsame t' g); auto. now right. }
    unfold process_all. simpl.
    fold (process_all p rest (process_one p t prev)).
    rewrite (IH Hnd' _ Hsame').
    rewrite process_one_map, map_map. apply map_ext_in. intros g Hg.
    change (selected (t :: rest) g)
      with (has_id (id g) t || selected rest g).
    assert (Hs : forall x, id x = id t -> selected rest x = false).
    { intros x Ex. apply selected_false. now rewrite Ex. }
    unfold has_id.
    destruct (String.eqb_spec (id g) (id t)) as [E|E].
    + pose proof (Hsame t g (or_introl eq_refl) Hg E) as ->.
      rewrite String.eqb_refl. simpl orb. cbv iota.
      unfold item_outcome.
      destruct (p t); rewrite Hs; reflexivity.
    + rewrite String.eqb_sym.
      destruct (String.eqb_spec (id g) (id t)) as [E'|_]; [contradiction|].
      reflexivity.
Qed.

(** On distinct identifiers a run turns every eligible item into the
    outcome of its own [processImage] call and leaves the others alone. *)
Lemma processBatch_closed p fs :
  NoDup (map id fs) ->
  processBatch_files p fs
    = map (fun g => if eligible g then item_outcome p g else g) fs.
Proof.
  intros Hnd. unfold processBatch_files, filesToProcess.
  rewrite process_all_closed.
  - apply map_ext_in. intros g Hg.
    destruct (eligible g) eqn:Eg.
    + replace (selected (filter eligible fs) g) with true; [reflexivity|].
      symmetry. apply existsb_exists. exists g. split.
      * apply filter_In. tauto.
      * unfold has_id. apply String.eqb_refl.
    + destruct (selected (filter eligible fs) g) eqn:Es; [|reflexivity].
      apply existsb_exists in Es. destruct Es as (t & Ht & E).
      apply filter_In in Ht. unfold has_id in E. apply String.eqb_eq in E.
      rewrite (NoDup_map_inj id fs t g Hnd) in Ht; try tauto.
      destruct Ht as [_ Ht]. congruence.
  - now apply NoDup_map_filter.
  - intros t g Ht Hg E. apply filter_In in Ht.
    apply (NoDup_map_inj id fs g t Hnd); tauto.
Qed.

Lemma count_map_filter {A B} (q : B -> bool) (F : A -> B) (l : list A) :
  length (filter q (map F l)) = length (filter (fun x => q (F x)) l).
Proof.
  induction l as [|a l IH]; simpl; [reflexivity|].
  destruct (q (F a)); simpl; now rewrite IH.
Qed.

Lemma filter_length_ext_in {A} (q r : A -> bool) (l : list A) :
  (forall x, In x l -> q x = r x) ->
  length (filter q l) = length (filter r l).
Proof.
  intros H. induction l as [|a l IH]; simpl; [reflexivity|].
  rewrite (H a (or_introl eq_refl)).
  destruct (r a); simpl; rewrite IH; auto; intros x Hx; apply H; now right.
Qed.

Lemma filter_length_negb {A} (q : A -> bool) (l : list A) :
  length (filter (fun x => negb (q x)) l) + length (filter q l) = length l.
Proof.
  induction l as [|a l IH]; simpl; [reflexivity|].
  destruct (q a); simpl; lia.
Qed.

Lemma item_outcome_status p g :
  status (item_outcome p g) = if raises p g then ERROR else COMPLETED.
Proof. unfold item_outcome, raises. now destruct (p g). Qed.

(** Failure isolation on distinct identifiers: a run over [N] eligible
    items of which exactly one raises ends with [N - 1] items COMPLETED
    and one in ERROR with the generic message; a second run in which that
    item's processing succeeds ends with all [N] COMPLETED. *)
Lemma failure_isolation_distinct_ids p p' fs :
  NoDup (map id fs) ->
  Forall (fun f => eligible f = true) fs ->
  length (filter (raises p) fs) = 1 ->
  (forall g, In g (processBatch_files p fs) -> status g = ERROR ->
             raises p' g = false) ->
  count_status COMPLETED (processBatch_files p fs) = length fs - 1 /\
  count_status ERROR (processBatch_files p fs) = 1 /\
  (forall g, In g (processBatch_files p fs) -> status g = ERROR ->
             error g = Some "Processing failed") /\
  count_status COMPLETED (processBatch_files p' (processBatch_files p fs))
    = length fs /\
  count_status ERROR (processBatch_files p' (processBatch_files p fs)) = 0.
Proof.
  intros Hnd Hel H1 Hretry.
  assert (E1 : processBatch_files p fs = map (item_outcome p) fs).
  { rewrite processBatch_closed by assumption. apply map_ext_in.
    intros g Hg. rewrite Forall_forall in Hel. now rewrite (Hel g Hg). }
  assert (Hids : map id (processBatch_files p fs) = map id fs).
  { rewrite E1, map_map. apply map_ext. intros g. unfold item_outcome.
    now destruct (p g). }
  assert (Hst : forall g, In g (processBatch_files p fs) ->
                          status g = COMPLETED \/
                          (status g = ERROR /\
                           error g = Some "Processing failed")).
  { intros g Hg. rewrite E1 in Hg. apply in_map_iff in Hg.
    destruct Hg as (f & <- & _). unfold item_outcome.
    destruct (p f); simpl; auto. }
  assert (Hc : count_status ERROR (processBatch_files p fs) = 1).
  { unfold count_status. rewrite E1, count_map_filter, <- H1.
    apply filter_length_ext_in. intros g _. rewrite item_outcome_status.
    now destruct (raises p g). }
  assert (Hd : count_status COMPLETED (processBatch_files p fs)
               = length fs - 1).
  { unfold count_status. rewrite E1, count_map_filter.
    rewrite (filter_length_ext_in _ (fun g => negb (raises p g))).
    - pose proof (filter_length_negb (raises p) fs). lia.
    - intros g _. rewrite item_outcome_status. now destruct (raises p g). }
  split; [exact Hd|]. split; [exact Hc|]. split.
  { intros g Hg He. destruct (Hst g Hg) as [H|[_ H]]; congruence. }
  assert (E2 : forall g, In g (processBatch_files p fs) ->
                 status (if eligible g then item_outcome p' g else g)
                 = COMPLETED).
  { intros g Hg. destruct (Hst g Hg) as [H|[H _]].
    - unfold eligible. rewrite H. assumption.
    - unfold eligible. rewrite H. simpl.
      rewrite item_outcome_status, (Hretry g Hg H). reflexivity. }
  rewrite (processBatch_closed p') by (now rewrite Hids).
  unfold count_status. rewrite !count_map_filter. split.
  - rewrite (filter_length_ext_in _ (fun _ => true)).
    + rewrite filter_all by (apply Forall_forall; auto).
      rewrite E1. apply length_map.
    + intros g Hg. now rewrite (E2 g Hg).
  - rewrite (filter_length_ext_in _ (fun _ => false)).
    + clear. induction (processBatch_files p fs); auto.
    + intros g Hg. now rewrite (E2 g Hg).
Qed.

(** ** The component under a collision-free generator *)

Section Invariant.

Variable env : Env.

Lemma drawn_before_mono n m i :
  n <= m -> drawn_before env n i -> drawn_before env m i.
Proof. intros Hle (k & Hk & E). exists k. split; [lia | exact E]. Qed.

Lemma collision_free_mono n m :
  n <= m -> collision_free env m -> collision_free env n.
Proof. intros Hle H j k Hj Hk. apply H; lia. Qed.

Lemma update_by_id_ids i g prev :
  (forall f, id (g f) = id f) ->
  map id (update_by_id i g prev) = map id prev.
Proof.
  intros H. unfold update_by_id. rewrite map_map. apply map_ext.
  intros f. destruct (String.eqb (id f) i); auto.
Qed.

Lemma Consistent_initial : Consistent env initial_world.
Proof.
  constructor; simpl; try constructor; tauto.
Qed.

(** A step that keeps, for every item it leaves in the list, identifier,
    status and output, and that does not touch the suspended run. *)
Lemma Consistent_simulated w w' :
  Consistent env w ->
  (forall g', In g' (files w') ->
     exists g, In g (files w) /\ id g' = id g /\ status g' = status g /\
               processedUrl g' = processedUrl g) ->
  NoDup (map id (files w')) ->
  filesToProcess_rest w' = filesToProcess_rest w ->
  awaited w' = awaited w ->
  random_calls w' = random_calls w ->
  isProcessingBatch w' = isProcessingBatch w ->
  Consistent env w'.
Proof.
  intros [Hdr Hnd Hout Htd Hel Hpa Har] Hsim Hnd' Eq Ea Er Ep.
  assert (Eai : awaited_ids w' = awaited_ids w)
    by (unfold awaited_ids; now rewrite Ea).
  constructor; rewrite ?Eq, ?Ea, ?Er, ?Ep, ?Eai; try assumption.
  - apply Forall_app in Hdr. destruct Hdr as [Hf Hrest].
    apply Forall_app. split; [|exact Hrest].
    apply Forall_forall. intros i Hi. apply in_map_iff in Hi.
    destruct Hi as (g' & <- & Hg'). destruct (Hsim g' Hg') as (g & Hg & E & _).
    rewrite Forall_forall in Hf. apply Hf. rewrite E. now apply in_map.
  - apply Forall_forall. intros g' Hg'.
    destruct (Hsim g' Hg') as (g & Hg & _ & Es & Eu).
    rewrite Forall_forall in Hout. specialize (Hout g Hg).
    unfold output_iff_completed in *. now rewrite Es, Eu.
  - intros t g' Ht Hg' E. destruct (Hsim g' Hg') as (g & Hg & Ei & Es & _).
    unfold eligible. rewrite Es. apply (Hel t g Ht Hg). congruence.
  - intros g' Hg'. destruct (Hsim g' Hg') as (g & Hg & Ei & Es & _).
    rewrite Es, Ei. now apply Hpa.
Qed.

Lemma Consistent_map w w' (F : ImageFile -> ImageFile) :
  Consistent env w ->
  files w' = map F (files w) ->
  (forall g, id (F g) = id g /\ status (F g) = status g /\
             processedUrl (F g) = processedUrl g) ->
  filesToProcess_rest w' = filesToProcess_rest w ->
  awaited w' = awaited w ->
  random_calls w' = random_calls w ->
  isProcessingBatch w' = isProcessingBatch w ->
  Consistent env w'.
Proof.
  intros Hc Ef HF. apply Consistent_simulated; [exact Hc| |].
  - intros g' Hg'. rewrite Ef in Hg'. apply in_map_iff in Hg'.
    destruct Hg' as (g & <- & Hg). exists g. split; [exact Hg|]. apply HF.
  - rewrite Ef, map_map.
    rewrite (map_ext (fun x => id (F x)) id) by (intros g; apply HF).
    apply (ids_distinct _ _ Hc).
Qed.

Lemma Consistent_filter w w' (q : ImageFile -> bool) :
  Consistent env w ->
  files w' = filter q (files w) ->
  filesToProcess_rest w' = filesToProcess_rest w ->
  awaited w' = awaited w ->
  random_calls w' = random_calls w ->
  isProcessingBatch w' = isProcessingBatch w ->
  Consistent env w'.
Proof.
  intros Hc Ef. apply Consistent_simulated; [exact Hc| |].
  - intros g' Hg'. rewrite Ef in Hg'. apply filter_In in Hg'.
    exists g'. tauto.
  - rewrite Ef. apply NoDup_map_filter, (ids_distinct _ _ Hc).
Qed.

Lemma Consistent_handleFiles newFiles w :
  Consistent env w ->
  collision_free env (random_calls (handleFiles env newFiles w)) ->
  Consistent env (handleFiles env newFiles w).
Proof.
  intros Hc. unfold handleFiles. destruct newFiles as [fl|]; [|auto].
  destruct (MAX_FILES env <? _); [auto|].
  set (valid := filter is_image fl).
  set (r := random_calls w). simpl. intros Hfree.
  destruct Hc as [Hdr Hnd Hout Htd Hel Hpa Har]. fold r in Hdr.
  assert (Hmono : forall i, drawn_before env r i ->
                            drawn_before env (r + length valid) i)
    by (intros i; apply drawn_before_mono; lia).
  assert (Hnew : forall i,
            In i (map id (new_items env (globalSettings w) r (url_calls w)
                                    valid)) ->
            exists k, r <= k < r + length valid /\ i = fresh_id env k).
  { intros i Hi. rewrite new_items_ids in Hi. apply in_map_iff in Hi.
    destruct Hi as (k & <- & Hk). apply in_seq in Hk. exists k. auto. }
  assert (Hold : forall i,
            In i (map id (files w) ++ awaited_ids w
                    ++ map id (filesToProcess_rest w)) ->
            exists k, k < r /\ i = fresh_id env k).
  { rewrite Forall_forall in Hdr. exact Hdr. }
  assert (Hdisj : forall i,
            In i (map id (files w) ++ awaited_ids w
                    ++ map id (filesToProcess_rest w)) ->
            ~ In i (map id (new_items env (globalSettings w) r (url_calls w)
                                      valid))).
  { intros i Hi Hi'. destruct (Hold i Hi) as (j & Hj & Ej).
    destruct (Hnew i Hi') as (k & Hk & Ek).
    assert (j = k) by (apply Hfree; try lia; congruence). lia. }
  assert (Hfresh := new_items_fresh env (globalSettings w) r (url_calls w)
                                  valid).
  rewrite Forall_forall in Hfresh.
  constructor; simpl.
  - apply Forall_forall. intros i Hi. rewrite map_app in Hi.
    rewrite <- app_assoc in Hi. apply in_app_or in Hi.
    destruct Hi as [Hi|Hi].
    + apply Hmono, Hold. apply in_or_app. now left.
    + apply in_app_or in Hi. destruct Hi as [Hi|Hi].
      * destruct (Hnew i Hi) as (k & Hk & Ek). exists k. split; [lia|auto].
      * apply Hmono, Hold. apply in_or_app. now right.
  - rewrite map_app. apply NoDup_app; [exact Hnd| |].
    + rewrite new_items_ids.
      apply NoDup_map_NoDup_ForallPairs; [|apply seq_NoDup].
      intros j k Hj Hk. apply in_seq in Hj, Hk. apply Hfree; lia.
    + intros i Hi. apply Hdisj. apply in_or_app. now left.
  - apply Forall_app. split; [exact Hout|]. apply Forall_forall.
    intros g Hg. destruct (Hfresh g Hg) as (Es & Eu & _).
    unfold output_iff_completed. rewrite Es, Eu. split; intros H.
    + now destruct H.
    + discriminate H.
  - exact Htd.
  - intros t g Ht Hg E. apply in_app_or in Hg. destruct Hg as [Hg|Hg].
    + now apply (Hel t g).
    + destruct (Hfresh g Hg) as (Es & _). unfold eligible.
      now rewrite Es.
  - intros g Hg. apply in_app_or in Hg. destruct Hg as [Hg|Hg].
    + now apply Hpa.
    + destruct (Hfresh g Hg) as (Es & _). rewrite Es. split; [discriminate|].
      intros Hin. exfalso. apply (Hdisj (id g)).
      * apply in_or_app. right. apply in_or_app. now left.
      * now apply in_map.
  - exact Har.
Qed.

Lemma Consistent_batch_advance w :
  Consistent env w -> awaited w = None -> isProcessingBatch w = true ->
  Consistent env (batch_advance w).
Proof.
  intros [Hdr Hnd Hout Htd Hel Hpa Har] Ha Hp. unfold batch_advance.
  unfold awaited_ids in *. rewrite Ha in *. simpl in Hdr, Htd, Hpa.
  destruct (filesToProcess_rest w) as [|t rest] eqn:Eq.
  - constructor; simpl; auto.
  - simpl in Hdr, Htd. inversion Htd as [|? ? Hnotin Htd']; subst.
    assert (Hids : map id (mark_processing t (files w)) = map id (files w))
      by (apply update_by_id_ids; reflexivity).
    rewrite Forall_forall in Hout.
    constructor; simpl; rewrite ?Hids; try assumption.
    + apply Forall_forall. intros g' Hg'.
      apply in_map_iff in Hg'. destruct Hg' as (g & <- & Hg).
      destruct (String.eqb_spec (id g) (id t)) as [E|E]; [|now apply Hout].
      pose proof (Hel t g (or_introl eq_refl) Hg E) as He.
      pose proof (Hout g Hg) as Ho. unfold output_iff_completed in *.
      simpl. unfold eligible in He.
      split; intros H; [|discriminate H].
      destruct Ho as [Ho _]. rewrite (Ho H) in He. discriminate He.
    + intros t' g' Ht' Hg' E.
      apply in_map_iff in Hg'. destruct Hg' as (g & <- & Hg).
      destruct (String.eqb_spec (id g) (id t)) as [E'|E'].
      * exfalso. apply Hnotin. simpl in E. rewrite <- E', E.
        now apply in_map.
      * apply (Hel t' g); auto. now right.
    + intros g' Hg'.
      apply in_map_iff in Hg'. destruct Hg' as (g & <- & Hg).
      destruct (String.eqb_spec (id g) (id t)) as [E'|E']; simpl.
      * split; auto.
      * split; intros H.
        -- now apply Hpa in H.
        -- destruct H as [H|[]]. congruence.
    + rewrite Hp. discriminate.
Qed.

Lemma Consistent_click w :
  Consistent env w -> Consistent env (processBatch_click w).
Proof.
  intros Hc. unfold processBatch_click.
  destruct (isProcessingBatch w) eqn:Hp; [exact Hc|].
  destruct (all_completed (files w)); [exact Hc|]. simpl.
  apply Consistent_batch_advance; [|reflexivity|reflexivity].
  destruct Hc as [Hdr Hnd Hout Htd Hel Hpa Har].
  destruct (Har Hp) as [Ha Eq].
  unfold awaited_ids in *. rewrite Ha, Eq in *. simpl in Hdr, Hpa.
  rewrite app_nil_r in Hdr.
  constructor; simpl; try assumption.
  - apply Forall_app. split; [exact Hdr|].
    apply Forall_forall. intros i Hi. unfold filesToProcess in Hi.
    apply in_map_iff in Hi. destruct Hi as (t & <- & Ht).
    apply filter_In in Ht. rewrite Forall_forall in Hdr. apply Hdr.
    apply in_map. tauto.
  - apply NoDup_map_filter. exact Hnd.
  - intros t g Ht Hg E. apply filter_In in Ht.
    rewrite (NoDup_map_inj id (files w) g t Hnd); tauto.
  - discriminate.
Qed.

Lemma Consistent_settled r w :
  Consistent env w -> Consistent env (processImage_settled r w).
Proof.
  intros Hc. unfold processImage_settled.
  destruct (awaited w) as [t|] eqn:Ha; [|exact Hc].
  destruct Hc as [Hdr Hnd Hout Htd Hel Hpa Har].
  assert (Hp : isProcessingBatch w = true).
  { destruct (isProcessingBatch w); [reflexivity|].
    destruct (Har eq_refl) as [H _]. congruence. }
  unfold awaited_ids in *. rewrite Ha in *. simpl in Hdr, Htd, Hpa.
  inversion Htd as [|? ? Hnotin Htd']; subst.
  apply Consistent_batch_advance; [|reflexivity|exact Hp].
  assert (Hids : map id (settle t r (files w)) = map id (files w)).
  { destruct r; apply update_by_id_ids; reflexivity. }
  assert (Hin : forall g', In g' (settle t r (files w)) ->
            exists g, In g (files w) /\
              g' = if String.eqb (id g) (id t)
                   then match r with
                        | Resolved u => with_completed g u
                        | Rejected => with_error g
                        end
                   else g).
  { intros g' Hg'. destruct r; apply in_map_iff in Hg';
      destruct Hg' as (g & <- & Hg); exists g; auto. }
  rewrite Forall_forall in Hout.
  constructor; simpl; rewrite ?Hids; try assumption.
  - apply Forall_app in Hdr. destruct Hdr as [H1 H2].
    apply Forall_app. split; [exact H1|]. now inversion H2.
  - apply Forall_forall. intros g' Hg'.
    destruct (Hin g' Hg') as (g & Hg & ->).
    destruct (String.eqb_spec (id g) (id t)) as [E|E]; [|now apply Hout].
    assert (Hs : status g = PROCESSING) by (apply Hpa; auto).
    pose proof (Hout g Hg) as Ho. unfold output_iff_completed in *.
    destruct r; simpl.
    + split; [reflexivity | discriminate].
    + split; intros H; [|discriminate H].
      destruct Ho as [Ho _]. rewrite (Ho H) in Hs. discriminate Hs.
  - intros t' g' Ht' Hg' E.
    destruct (Hin g' Hg') as (g & Hg & ->).
    destruct (String.eqb_spec (id g) (id t)) as [E'|E'].
    + exfalso. apply Hnotin.
      assert (H : id t' = id t) by (destruct r; simpl in E; congruence).
      rewrite <- H. now apply in_map.
    + now apply (Hel t' g).
  - intros g' Hg'.
    destruct (Hin g' Hg') as (g & Hg & ->).
    destruct (String.eqb_spec (id g) (id t)) as [E'|E'].
    + destruct r; simpl; split; try discriminate; intros [].
    + split; [|intros []]. intros H. apply Hpa in H; [|exact Hg].
      destruct H as [H|[]]. congruence.
  - rewrite Hp. discriminate.
Qed.

Lemma random_calls_step w e :
  random_calls w <= random_calls (step env w e).
Proof.
  destruct e; simpl; try lia.
  - unfold handleFiles. destruct newFiles; [|lia].
    destruct (MAX_FILES env <? _); simpl; lia.
  - unfold img_onload. destruct (nth_error _ _); simpl; lia.
  - unfold processBatch_click.
    destruct (isProcessingBatch w || all_completed (files w)); [lia|].
    unfold batch_advance. simpl. destruct (filesToProcess (files w)); simpl; lia.
  - unfold processImage_settled. destruct (awaited w); [|lia].
    unfold batch_advance. simpl. destruct (filesToProcess_rest w); simpl; lia.
  - unfold downloadAllZip.
    destruct (length _ =? 0); [simpl; lia|].
    destruct (zip_entries _ _); simpl; lia.
Qed.

Lemma Consistent_step w e :
  Consistent env w ->
  collision_free env (random_calls (step env w e)) ->
  Consistent env (step env w e).
Proof.
  intros Hc Hfree. destruct e; simpl in *.
  - now apply Consistent_handleFiles.
  - unfold img_onload. destruct (nth_error (probes w) k) as [i|]; [|exact Hc].
    eapply Consistent_map with (F := fun f =>
      if String.eqb (id f) i then with_dimensions f w0 h else f);
      [exact Hc | reflexivity | | reflexivity ..].
    intros g. destruct (String.eqb (id g) i); auto.
  - eapply Consistent_map with (F := fun f =>
      if status_eqb (status f) IDLE
      then with_settings f (merge_settings (settings f) newSettings) else f);
      [exact Hc | reflexivity | | reflexivity ..].
    intros g. destruct (status_eqb (status g) IDLE); auto.
  - eapply Consistent_map with (F := fun f =>
      if String.eqb (id f) i
      then with_settings f (merge_settings (settings f) newSettings) else f);
      [exact Hc | reflexivity | | reflexivity ..].
    intros g. destruct (String.eqb (id g) i); auto.
  - eapply Consistent_map with (F := fun f =>
      if String.eqb (id f) i then with_analysis f a else f);
      [exact Hc | reflexivity | | reflexivity ..].
    intros g. destruct (String.eqb (id g) i); auto.
  - eapply Consistent_filter; [exact Hc | reflexivity ..].
  - eapply Consistent_filter with (q := fun _ => false);
      [exact Hc | | reflexivity ..].
    simpl. induction (files w); auto.
  - now apply Consistent_click.
  - now apply Consistent_settled.
  - eapply Consistent_map with (F := fun f => f); [exact Hc | | auto | ..];
      unfold downloadAllZip;
      destruct (length (filter exportable (files w)) =? 0);
      try destruct (zip_entries env (filter exportable (files w)));
      simpl; rewrite ?map_id; reflexivity.
Qed.

(** Every state the component reaches while the generator has not yet
    repeated an identifier satisfies the invariant. *)
Lemma reachable_consistent events :
  collision_free env (random_calls (run env events initial_world)) ->
  Consistent env (run env events initial_world).
Proof.
  unfold run. induction events as [|e events IH] using rev_ind; intros Hfree.
  - apply Consistent_initial.
  - rewrite fold_left_app in *. simpl in *.
    apply Consistent_step; [|exact Hfree]. apply IH.
    eapply collision_free_mono; [|exact Hfree]. apply random_calls_step.
Qed.

Lemma has_id_at_most_once i fs :
  NoDup (map id fs) -> length (filter (has_id i) fs) <= 1.
Proof.
  induction fs as [|f fs IH]; simpl; intros Hnd; [lia|].
  inversion Hnd as [|? ? Hnotin Hnd']; subst.
  unfold has_id at 1. destruct (String.eqb_spec (id f) i) as [E|E]; auto.
  simpl. replace (filter (has_id i) fs) with (@nil ImageFile); [simpl; lia|].
  symmetry. clear IH Hnd Hnd'. induction fs as [|g fs IH]; [reflexivity|].
  simpl. unfold has_id at 1.
  destruct (String.eqb_spec (id g) i) as [E'|E'].
  - exfalso. apply Hnotin. left. congruence.
  - apply IH. intros H. apply Hnotin. now right.
Qed.

(** With distinct draws, in every reachable state the identifiers are
    pairwise distinct, an item has an output exactly when it is COMPLETED,
    and at most one item is in PROCESSING. *)
Lemma reachable_distinct_draws events :
  collision_free env (random_calls (run env events initial_world)) ->
  NoDup (map id (files (run env events initial_world))) /\
  Forall output_iff_completed (files (run env events initial_world)) /\
  count_status PROCESSING (files (run env events initial_world)) <= 1.
Proof.
  intros Hfree. pose proof (reachable_consistent events Hfree) as Hc.
  set (w := run env events initial_world) in *.
  destruct Hc as [Hdr Hnd Hout Htd Hel Hpa Har].
  split; [exact Hnd|]. split; [exact Hout|].
  unfold count_status. unfold awaited_ids in Hpa.
  destruct (awaited w) as [t|].
  - rewrite (filter_length_ext_in _ (has_id (id t))).
    + now apply has_id_at_most_once.
    + intros g Hg. specialize (Hpa g Hg). unfold has_id.
      destruct (String.eqb_spec (id g) (id t)) as [E|E].
      * apply status_eqb_eq. apply Hpa. left. congruence.
      * destruct (status_eqb_spec (status g) PROCESSING) as [H|H]; auto.
        apply Hpa in H. destruct H as [H|[]]. congruence.
  - rewrite (filter_length_ext_in _ (fun _ => false)).
    + clear. induction (files w); simpl; auto.
    + intros g Hg. specialize (Hpa g Hg).
      destruct (status_eqb_spec (status g) PROCESSING) as [H|H]; auto.
      apply Hpa in H. destruct H.
Qed.

End Invariant.

Lemma settle_ids t r prev : map id (settle t r prev) = map id prev.
Proof. destruct r; apply update_by_id_ids; reflexivity. Qed.

Lemma batch_trace_sequential p todo :
  forall prev,
    NoDup (map id prev) ->
    (forall g, In g prev -> status g <> PROCESSING) ->
    forall s, In s (batch_trace p todo prev) ->
              count_status PROCESSING s <= 1.
Proof.
  induction todo as [|t rest IH]; intros prev Hnd Hno s Hs; [destruct Hs|].
  simpl in Hs.
  assert (H1 : count_status PROCESSING (mark_processing t prev) <= 1).
  { unfold count_status, mark_processing, update_by_id.
    rewrite count_map_filter.
    rewrite (filter_length_ext_in _ (has_id (id t))).
    - now apply has_id_at_most_once.
    - intros g Hg. unfold has_id.
      destruct (String.eqb (id g) (id t)); [reflexivity|].
      destruct (status_eqb_spec (status g) PROCESSING) as [E|E]; auto.
      now destruct (Hno g Hg). }
  assert (H2 : forall g, In g (settle t (p t) (mark_processing t prev)) ->
                         status g <> PROCESSING).
  { intros g' Hg'. fold (process_one p t prev) in Hg'.
    rewrite process_one_map in Hg'. apply in_map_iff in Hg'.
    destruct Hg' as (g & <- & Hg).
    destruct (has_id (id t) g); [destruct (p t); discriminate|].
    now apply Hno. }
  destruct Hs as [<-|[<-|Hs]]; [exact H1| |].
  - unfold count_status.
    rewrite (filter_length_ext_in _ (fun _ => false)).
    + clear. induction (settle _ _ _); simpl; auto.
    + intros g Hg. apply H2 in Hg.
      now destruct (status_eqb_spec (status g) PROCESSING).
  - apply (IH (settle t (p t) (mark_processing t prev))); auto.
    rewrite settle_ids. unfold mark_processing.
    rewrite update_by_id_ids; auto.
Qed.

(** The batch-run algorithm on distinct identifiers: the run selects the
    IDLE and ERROR items in list order, every file list it passes through
    has at most one item in PROCESSING, and it ends with each selected item
    COMPLETED with the output of its call or in ERROR. *)
Lemma sequential_distinct_ids p fs :
  NoDup (map id fs) ->
  count_status PROCESSING fs = 0 ->
  filesToProcess fs = filter eligible fs /\
  (forall s, In s (processBatch_trace p fs) ->
             count_status PROCESSING s <= 1) /\
  processBatch_files p fs
    = map (fun g => if eligible g then item_outcome p g else g) fs.
Proof.
  intros Hnd H0. split; [reflexivity|]. split.
  - apply batch_trace_sequential; [exact Hnd|].
    intros g Hg E. unfold count_status in H0.
    assert (Hin : In g (filter (fun f => status_eqb (status f) PROCESSING)
                               fs)).
    { apply filter_In. split; [exact Hg|]. now apply status_eqb_eq. }
    destruct (filter _ fs); [destruct Hin | discriminate H0].
  - now apply processBatch_closed.
Qed.

(** ** The coroutine and the uninterrupted run agree *)

Lemma run_settle_events env p todo :
  forall w,
    awaited w = None -> filesToProcess_rest w = todo ->
    files (run env (settle_events p todo) (batch_advance w))
      = process_all p todo (files w) /\
    isProcessingBatch (run env (settle_events p todo) (batch_advance w))
      = false.
Proof.
  induction todo as [|t rest IH]; intros w Ha Eq.
  - unfold batch_advance. rewrite Eq. simpl. auto.
  - pose (w2 := {| files := process_one p t (files w);
                   globalSettings := globalSettings w;
                   isProcessingBatch := isProcessingBatch w;
                   isZipping := isZipping w;
                   probes := probes w;
                   filesToProcess_rest := rest;
                   awaited := None;
                   random_calls := random_calls w;
                   url_calls := url_calls w |}).
    assert (E : step env (batch_advance w) (EvProcessImageSettled (p t))
                = batch_advance w2).
    { unfold batch_advance at 1. rewrite Eq. reflexivity. }
    change (run env (settle_events p (t :: rest)) (batch_advance w))
      with (run env (settle_events p rest)
              (step env (batch_advance w) (EvProcessImageSettled (p t)))).
    rewrite E. exact (IH w2 eq_refl eq_refl).
Qed.

(** A click on "Upscale All" followed by the settling of each selected
    item, with nothing in between, leaves the file list of
    [processBatch_files] and the button enabled again. *)
Lemma run_uninterrupted env p w :
  isProcessingBatch w = false -> all_completed (files w) = false ->
  files (run env (EvProcessBatch
                    :: settle_events p (filesToProcess (files w))) w)
    = processBatch_files p (files w) /\
  isProcessingBatch
    (run env (EvProcessBatch
                :: settle_events p (filesToProcess (files w))) w) = false.
Proof.
  intros Hp Hall. unfold run. simpl fold_left.
  unfold processBatch_click. rewrite Hp, Hall. simpl orb. cbv iota.
  match goal with
  | |- files (fold_left _ _ (batch_advance ?w1)) = _ /\ _ =>
      apply (run_settle_events env p (filesToProcess (files w)) w1
               eq_refl eq_refl)
  end.
Qed.

(** ** Sanity checks on sample data *)

Example strip_extension_samples :
  strip_extension "photo.jpeg" = "photo" /\
  strip_extension "archive.tar.gz" = "archive.tar" /\
  strip_extension "noext" = "noext" /\
  strip_extension "trailing." = "trailing." /\
  strip_extension "dir.d/file" = "dir.d/file" /\
  strip_extension ".hidden" = EmptyString.
Proof. repeat split. Qed.

Example export_three :
  snd (downloadAllZip env_ok
         (world_of
            [with_completed (item "a" "a.png" IDLE) "blob:out/a";
             item "b" "b.webp" ERROR;
             with_completed (item "c" "c.d.jpg" IDLE) "blob:out/c"]))
  = Downloaded "UltraArt_Batch_2024-05-17.zip"
      [("a_UPSCALED.png", "bytes of blob:out/a");
       ("c.d_UPSCALED.png", "bytes of blob:out/c")].
Proof. reflexivity. Qed.

Example export_nothing :
  snd (downloadAllZip env_ok (world_of [item "a" "a.png" IDLE]))
  = NothingToExport.
Proof. reflexivity. Qed.

Example env_ok_collision_free : collision_free env_ok 3.
Proof.
  intros j k Hj Hk.
  destruct j as [|[|[|j]]], k as [|[|[|k]]]; try lia;
    try reflexivity; intros H; discriminate H.
Qed.

Example three_items_one_failure :
  let fs := [item "a" "a.png" IDLE; item "b" "b.png" IDLE;
             item "c" "c.png" ERROR] in
  count_status COMPLETED (processBatch_files (fails_on "b.png") fs) = 2 /\
  count_status ERROR (processBatch_files (fails_on "b.png") fs) = 1 /\
  count_status COMPLETED
    (processBatch_files always_succeeds
       (processBatch_files (fails_on "b.png") fs)) = 3.
Proof.
  intros fs.
  destruct (failure_isolation_distinct_ids (fails_on "b.png")
              always_succeeds fs) as (H1 & H2 & _ & H3 & _).
  - repeat constructor; simpl; intuition discriminate.
  - repeat constructor.
  - reflexivity.
  - reflexivity.
  - auto.
Qed.

Example two_items_in_turn :
  let fs := [item "a" "a.png" IDLE; with_completed (item "b" "b.png" IDLE)
                                     "blob:out/b.png";
             item "c" "c.png" ERROR] in
  map id (filesToProcess fs) = ["a"; "c"] /\
  map (map status) (processBatch_trace always_succeeds fs)
    = [[PROCESSING; COMPLETED; ERROR]; [COMPLETED; COMPLETED; ERROR];
       [COMPLETED; COMPLETED; PROCESSING];
       [COMPLETED; COMPLETED; COMPLETED]] /\
  (forall s, In s (processBatch_trace always_succeeds fs) ->
             count_status PROCESSING s <= 1).
Proof.
  intros fs. split; [reflexivity|]. split; [reflexivity|].
  apply (sequential_distinct_ids always_succeeds fs).
  - repeat constructor; simpl; intuition discriminate.
  - reflexivity.
Qed.

Example distinct_draws_run :
  let events := [EvHandleFiles (Some [png "a.png"; png "b.png"]);
                 EvProcessBatch;
                 EvProcessImageSettled (Resolved "blob:out/a.png")] in
  map (fun f => (id f, status f, processedUrl f))
      (files (run env_ok events initial_world))
    = [("4fzyo82mv", COMPLETED, Some "blob:out/a.png");
       ("x8q3k1c7a", PROCESSING, None)] /\
  Forall output_iff_completed (files (run env_ok events initial_world)).
Proof.
  intros events. split; [reflexivity|].
  apply (reachable_distinct_draws env_ok events).
  eapply collision_free_mono; [|apply env_ok_collision_free].
  simpl. lia.
Qed.

(** * Further properties of the component *)

Lemma run_invariant (P : World -> Prop) env :
  (forall w e, P w -> P (step env w e)) ->
  forall events w, P w -> P (run env events w).
Proof.
  intros Hstep. unfold run.
  induction events as [|e events IH]; intros w Hw; simpl; auto.
Qed.

Lemma Forall_update_by_id (P : ImageFile -> Prop) i g l :
  (forall f, P f -> P (g f)) -> Forall P l -> Forall P (update_by_id i g l).
Proof.
  intros Hg Hl. unfold update_by_id. apply Forall_map.
  eapply Forall_impl; [|exact Hl]. intros f Hf. simpl.
  destruct (String.eqb (id f) i); auto.
Qed.

Lemma Forall_filter {A} (P : A -> Prop) (q : A -> bool) l :
  Forall P l -> Forall P (filter q l).
Proof.
  intros H. apply Forall_forall. intros x Hx. apply filter_In in Hx.
  rewrite Forall_forall in H. apply H. tauto.
Qed.

Lemma filter_none {A} (q : A -> bool) (l : list A) :
  Forall (fun x => q x = false) l -> filter q l = [].
Proof.
  induction 1 as [|x l Hx _ IH]; simpl; [reflexivity|]. now rewrite Hx.
Qed.

(** ** Submission: nothing to add *)

(** X1. A submission without a file list, or with a list that holds no
    image, leaves the whole component as it is, whatever the capacity. *)
Theorem handleFiles_nothing_to_add
  (env : Env) (newFiles : option (list File)) (w : World) :
  (forall fl, newFiles = Some fl ->
              Forall (fun f => is_image f = false) fl) ->
  handleFiles env newFiles w = w.
Proof.
  intros H. destruct newFiles as [fl|]; [|reflexivity].
  unfold handleFiles. rewrite (filter_none _ _ (H fl eq_refl)). simpl.
  destruct (MAX_FILES env <? _); [reflexivity|].
  destruct w. simpl. now rewrite !app_nil_r, !Nat.add_0_r.
Qed.

Lemma handleFiles_nothing_to_add_witness :
  handleFiles env_ok
    (Some [{| name := "notes.txt"; type := "text/plain"; size := 10 |}])
    (world_of [item "a" "a.png" IDLE])
  = world_of [item "a" "a.png" IDLE].
Proof.
  apply (handleFiles_nothing_to_add env_ok
           (Some [{| name := "notes.txt"; type := "text/plain";
                     size := 10 |}])
           (world_of [item "a" "a.png" IDLE])).
  intros fl E. injection E as <-. repeat constructor.
Defined.

(** ** Capacity *)

Lemma batch_advance_length w :
  length (files (batch_advance w)) = length (files w).
Proof.
  unfold batch_advance. destruct (filesToProcess_rest w); simpl;
    [reflexivity | apply update_by_id_length].
Qed.

Lemma settle_length t r prev : length (settle t r prev) = length prev.
Proof. destruct r; apply update_by_id_length. Qed.

Lemma step_files_length env w e :
  length (files (step env w e))
  <= Nat.max (length (files w)) (MAX_FILES env).
Proof.
  destruct e; simpl.
  - unfold handleFiles. destruct newFiles as [fl|]; [|lia].
    destruct (Nat.ltb_spec (MAX_FILES env)
                (length (files w) + length (filter is_image fl)));
      simpl; [lia|].
    rewrite length_app, new_items_length. lia.
  - unfold img_onload. destruct (nth_error _ _); simpl; [|lia].
    unfold probe_resolved. rewrite update_by_id_length. lia.
  - rewrite apply_to_idle_length. lia.
  - unfold updateFileSettings. rewrite update_by_id_length. lia.
  - unfold updateFileAnalysis. rewrite update_by_id_length. lia.
  - unfold removeFile. pose proof (filter_length_le
      (fun f => negb (String.eqb (id f) i)) (files w)). lia.
  - lia.
  - unfold processBatch_click.
    destruct (isProcessingBatch w || all_completed (files w)); [lia|].
    rewrite batch_advance_length. simpl. lia.
  - unfold processImage_settled. destruct (awaited w); [|lia].
    rewrite batch_advance_length. simpl. rewrite settle_length. lia.
  - rewrite downloadAllZip_files. lia.
Qed.

(** X2. However the handlers are interleaved, the file list never holds
    more than [MAX_FILES] items. *)
Theorem capacity_never_exceeded (env : Env) (events : list Event) :
  length (files (run env events initial_world)) <= MAX_FILES env.
Proof.
  apply (run_invariant (fun w => length (files w) <= MAX_FILES env)).
  - intros w e Hw. pose proof (step_files_length env w e). lia.
  - simpl. lia.
Qed.

(** ** What every item satisfies, whatever the identifiers *)

Lemma lifecycle_ok_new env gs r u fl :
  Forall lifecycle_ok (new_items env gs r u fl).
Proof.
  eapply Forall_impl; [|apply new_items_fresh].
  intros f (Es & Eu & Ee & _). unfold lifecycle_ok. rewrite Es, Eu, Ee.
  repeat split; discriminate.
Qed.

Lemma lifecycle_ok_same_outcome f g :
  outcome_of g = outcome_of f -> lifecycle_ok f -> lifecycle_ok g.
Proof.
  unfold outcome_of, lifecycle_ok. intros E. injection E as -> -> ->. auto.
Qed.

Lemma lifecycle_ok_batch_advance w :
  Forall lifecycle_ok (files w) -> Forall lifecycle_ok (files (batch_advance w)).
Proof.
  intros H. unfold batch_advance. destruct (filesToProcess_rest w); simpl;
    [exact H|].
  apply Forall_update_by_id; [|exact H].
  intros f _. unfold lifecycle_ok. simpl. repeat split; discriminate.
Qed.

Lemma lifecycle_ok_settle t r prev :
  Forall lifecycle_ok prev -> Forall lifecycle_ok (settle t r prev).
Proof.
  intros H. destruct r; simpl; (apply Forall_update_by_id; [|exact H]);
    intros f _; unfold lifecycle_ok; simpl; repeat split;
    try discriminate; reflexivity.
Qed.

Lemma lifecycle_ok_step env w e :
  Forall lifecycle_ok (files w) -> Forall lifecycle_ok (files (step env w e)).
Proof.
  intros H. destruct e; simpl.
  - unfold handleFiles. destruct newFiles as [fl|]; [|exact H].
    destruct (MAX_FILES env <? _); [exact H|]. simpl.
    apply Forall_app. split; [exact H | apply lifecycle_ok_new].
  - unfold img_onload. destruct (nth_error _ _); [|exact H]. simpl.
    apply Forall_update_by_id; [|exact H].
    intros f. now apply lifecycle_ok_same_outcome.
  - unfold apply_to_idle. apply Forall_map.
    eapply Forall_impl; [|exact H]. intros f Hf. simpl.
    destruct (status_eqb (status f) IDLE); [|exact Hf].
    revert Hf. now apply lifecycle_ok_same_outcome.
  - apply Forall_update_by_id; [|exact H].
    intros f. now apply lifecycle_ok_same_outcome.
  - apply Forall_update_by_id; [|exact H].
    intros f. now apply lifecycle_ok_same_outcome.
  - now apply Forall_filter.
  - constructor.
  - unfold processBatch_click.
    destruct (isProcessingBatch w || all_completed (files w)); [exact H|].
    now apply lifecycle_ok_batch_advance.
  - unfold processImage_settled. destruct (awaited w); [|exact H].
    apply lifecycle_ok_batch_advance. simpl. now apply lifecycle_ok_settle.
  - now rewrite downloadAllZip_files.
Qed.

Lemma lifecycle_ok_run env events :
  Forall lifecycle_ok (files (run env events initial_world)).
Proof.
  apply (run_invariant (fun w => Forall lifecycle_ok (files w))).
  - intros w e. apply lifecycle_ok_step.
  - constructor.
Qed.

(** X3. In every state the component reaches, with any identifier
    generator, a COMPLETED item has an output, an item in ERROR carries
    the message "Processing failed", and an IDLE item has neither output
    nor error message. *)
Theorem lifecycle_always_ok (env : Env) (events : list Event) :
  forall f, In f (files (run env events initial_world)) ->
    (status f = COMPLETED -> processedUrl f <> None) /\
    (status f = ERROR -> error f = Some "Processing failed") /\
    (status f = IDLE -> processedUrl f = None /\ error f = None).
Proof.
  intros f Hf. pose proof (lifecycle_ok_run env events) as H.
  rewrite Forall_forall in H. exact (H f Hf).
Qed.

Lemma lifecycle_always_ok_witness :
  error (with_error (new_item env_ok DEFAULT_SETTINGS 0 0 (png "a.png")))
  = Some "Processing failed".
Proof.
  apply (proj1 (proj2
           (lifecycle_always_ok env_ok
              [EvHandleFiles (Some [png "a.png"]); EvProcessBatch;
               EvProcessImageSettled Rejected]
              (with_error (new_item env_ok DEFAULT_SETTINGS 0 0
                                    (png "a.png")))
              (or_introl eq_refl)))).
  reflexivity.
Defined.

(** ** Frames: which handler writes which part of an item *)

Lemma map_update_by_id {B} (proj : ImageFile -> B) i g l :
  (forall f, proj (g f) = proj f) ->
  map proj (update_by_id i g l) = map proj l.
Proof.
  intros H. unfold update_by_id. rewrite map_map. apply map_ext.
  intros f. destruct (String.eqb (id f) i); auto.
Qed.

Lemma batch_advance_frame {B} (proj : ImageFile -> B) w :
  (forall f, proj (with_status f PROCESSING) = proj f) ->
  map proj (files (batch_advance w)) = map proj (files w).
Proof.
  intros H. unfold batch_advance. destruct (filesToProcess_rest w); simpl;
    [reflexivity | now apply map_update_by_id].
Qed.

Lemma settle_frame {B} (proj : ImageFile -> B) t r prev :
  (forall f u, proj (with_completed f u) = proj f) ->
  (forall f, proj (with_error f) = proj f) ->
  map proj (settle t r prev) = map proj prev.
Proof.
  intros Hc He. destruct r; simpl; apply map_update_by_id; auto.
Qed.

Lemma batch_event_frame {B} (proj : ImageFile -> B) env w e :
  (forall f, proj (with_status f PROCESSING) = proj f) ->
  (forall f u, proj (with_completed f u) = proj f) ->
  (forall f, proj (with_error f) = proj f) ->
  is_batch_event e = true ->
  map proj (files (step env w e)) = map proj (files w).
Proof.
  intros Hs Hc He Hb. destruct e; try discriminate Hb; simpl.
  - unfold processBatch_click.
    destruct (isProcessingBatch w || all_completed (files w));
      [reflexivity|]. now rewrite batch_advance_frame.
  - unfold processImage_settled. destruct (awaited w); [|reflexivity].
    rewrite batch_advance_frame by assumption. simpl.
    now apply settle_frame.
Qed.

(** X4. A click on "Upscale All" and the settling of a [processImage]
    promise keep the list in place and write nothing but status, output
    and error message: identifier, file, name, preview, settings,
    dimensions and analysis text of every item stay as they are. *)
Theorem batch_events_write_outcome_only
  (env : Env) (w : World) (e : Event) :
  is_batch_event e = true ->
  map source_of (files (step env w e)) = map source_of (files w) /\
  map editable_of (files (step env w e)) = map editable_of (files w).
Proof.
  intros Hb. split; apply batch_event_frame; auto.
Qed.

Lemma batch_events_write_outcome_only_witness :
  map editable_of
    (files (step env_ok
              (processBatch_click (world_of [item "a" "a.png" IDLE]))
              (EvProcessImageSettled Rejected)))
  = [(DEFAULT_SETTINGS, 16, 16, None)].
Proof.
  rewrite (proj2 (batch_events_write_outcome_only env_ok
                    (processBatch_click (world_of [item "a" "a.png" IDLE]))
                    (EvProcessImageSettled Rejected) eq_refl)).
  reflexivity.
Defined.

(** X5. Dimension probes, global and per-item settings updates, analysis
    results and the ZIP export keep the list in place and never change
    the status, the output or the error message of an item, nor what was
    fixed at its submission. *)
Theorem edit_events_keep_outcome (env : Env) (w : World) (e : Event) :
  is_edit_event e = true ->
  map source_of (files (step env w e)) = map source_of (files w) /\
  map outcome_of (files (step env w e)) = map outcome_of (files w).
Proof.
  intros He. destruct e; try discriminate He; simpl.
  - unfold img_onload. destruct (nth_error _ _); simpl; [|auto].
    split; apply map_update_by_id; reflexivity.
  - unfold apply_to_idle. rewrite !map_map.
    split; apply map_ext; intros f;
      destruct (status_eqb (status f) IDLE); reflexivity.
  - split; apply map_update_by_id; reflexivity.
  - split; apply map_update_by_id; reflexivity.
  - now rewrite downloadAllZip_files.
Qed.

Lemma edit_events_keep_outcome_witness :
  map outcome_of
    (files (step env_ok
              (world_of [with_error (item "a" "a.png" IDLE)])
              (EvUpdateFileSettings "a" (only_dpi 72))))
  = [(ERROR, None, Some "Processing failed")].
Proof.
  rewrite (proj2 (edit_events_keep_outcome env_ok
                    (world_of [with_error (item "a" "a.png" IDLE)])
                    (EvUpdateFileSettings "a" (only_dpi 72)) eq_refl)).
  reflexivity.
Defined.

(** ** What a whole run leaves behind, whatever the identifiers *)

Lemma selected_same_id todo f g :
  id f = id g -> selected todo f = selected todo g.
Proof. unfold selected. now intros ->. Qed.

Lemma process_all_status p todo :
  forall prev k g,
    nth_error prev k = Some g ->
    exists g',
      nth_error (process_all p todo prev) k = Some g' /\
      id g' = id g /\
      ((selected todo g = true /\
        (status g' = COMPLETED \/
         (status g' = ERROR /\
          exists t, In t todo /\ raises p t = true))) \/
       (selected todo g = false /\ g' = g)).
Proof.
  induction todo as [|t rest IH]; intros prev k g Hk.
  - exists g. simpl. auto.
  - pose proof (process_one_nth p t prev k g Hk) as H1.
    destruct (IH _ _ _ H1) as (g' & Hk' & Eid & Hcase).
    exists g'. split; [exact Hk'|].
    change (selected (t :: rest) g)
      with (has_id (id g) t || selected rest g).
    unfold has_id. rewrite (String.eqb_sym (id t) (id g)).
    destruct (String.eqb (id g) (id t)) eqn:E.
    + simpl orb. unfold raises in *.
      destruct (p t) eqn:Ept.
      * split; [exact Eid|]. left. split; [reflexivity|].
        destruct Hcase as [(_ & [Hc|(He & t' & Ht' & Hr)])|(_ & ->)];
          [left; exact Hc
          | right; split; [exact He|]; exists t'; split; [now right|exact Hr]
          | left; reflexivity].
      * split; [exact Eid|]. left. split; [reflexivity|].
        destruct Hcase as [(_ & [Hc|(He & t' & Ht' & Hr)])|(_ & ->)];
          [left; exact Hc
          | right; split; [exact He|]; exists t'; split; [now right|exact Hr]
          | right; split; [reflexivity|]; exists t; split;
            [now left | now rewrite Ept]].
    + simpl orb. split; [exact Eid|].
      destruct Hcase as [(Hs & [Hc|(He & t' & Ht' & Hr)])|(Hs & ->)].
      * left. split; [exact Hs|]. now left.
      * left. split; [exact Hs|]. right. split; [exact He|].
        exists t'. split; [now right | exact Hr].
      * right. split; [exact Hs | reflexivity].
Qed.

Lemma eligible_selected fs g :
  In g fs -> eligible g = true -> selected (filesToProcess fs) g = true.
Proof.
  intros Hg He. apply existsb_exists. exists g. split.
  - apply filter_In. tauto.
  - apply String.eqb_refl.
Qed.

(** X6. A run over any file list, shared identifiers included, leaves no
    item IDLE; every item that was not PROCESSING when the run started is
    COMPLETED or in ERROR when it ends, and COMPLETED when no
    [processImage] call of the run raises. *)
Theorem processBatch_settles_every_item
  (processImage : ImageFile -> Settled) (fs : list ImageFile)
  (k : nat) (g : ImageFile) :
  nth_error fs k = Some g ->
  exists g',
    nth_error (processBatch_files processImage fs) k = Some g' /\
    id g' = id g /\
    status g' <> IDLE /\
    (status g <> PROCESSING ->
     status g' = COMPLETED \/ status g' = ERROR) /\
    (status g <> PROCESSING ->
     (forall t, In t (filesToProcess fs) -> raises processImage t = false) ->
     status g' = COMPLETED).
Proof.
  intros Hk.
  destruct (process_all_status processImage (filesToProcess fs) fs k g Hk)
    as (g' & Hk' & Eid & Hcase).
  exists g'. split; [exact Hk'|]. split; [exact Eid|].
  assert (Hin : In g fs) by (eapply nth_error_In; eassumption).
  assert (Hel : selected (filesToProcess fs) g = false -> eligible g = false).
  { intros Hs. destruct (eligible g) eqn:E; [|reflexivity].
    rewrite (eligible_selected fs g Hin E) in Hs. discriminate Hs. }
  destruct Hcase as [(_ & [Hc|(He & t & Ht & Hr)])|(Hs & ->)].
  - rewrite Hc. repeat split; try discriminate; auto.
  - rewrite He. repeat split; try discriminate; auto.
    intros _ Hall. rewrite (Hall t Ht) in Hr. discriminate Hr.
  - specialize (Hel Hs). unfold eligible in Hel.
    destruct (status g); try discriminate Hel; repeat split;
      try discriminate; auto; intros H; now destruct H.
Qed.

Lemma processBatch_settles_every_item_witness :
  exists g',
    nth_error (processBatch_files always_succeeds twins) 0 = Some g' /\
    status g' = COMPLETED.
Proof.
  destruct (processBatch_settles_every_item always_succeeds twins 0
              (new_item env_collision DEFAULT_SETTINGS 0 0 (png "a.png"))
              eq_refl)
    as (g' & Hk & _ & _ & _ & Hall).
  exists g'. split; [exact Hk|]. apply Hall.
  - discriminate.
  - intros t _. reflexivity.
Defined.

Lemma process_all_length p todo :
  forall prev, length (process_all p todo prev) = length prev.
Proof.
  induction todo as [|t rest IH]; intros prev; [reflexivity|].
  unfold process_all. simpl. fold (process_all p rest (process_one p t prev)).
  rewrite IH, process_one_map. apply length_map.
Qed.

Lemma all_completed_no_work fs :
  all_completed fs = true -> filesToProcess fs = [].
Proof.
  intros H. unfold filesToProcess. apply filter_none.
  apply Forall_forall. intros f Hf. unfold all_completed in H.
  rewrite forallb_forall in H. specialize (H f Hf).
  apply status_eqb_eq in H. unfold eligible. now rewrite H.
Qed.

(** X7. When no item is PROCESSING at the start and no [processImage]
    call raises, the run leaves every item COMPLETED: the "Upscale All"
    button is then disabled, and a further run would find nothing to do. *)
Theorem successful_run_completes_all
  (processImage : ImageFile -> Settled) (fs : list ImageFile) :
  (forall g, In g fs -> status g <> PROCESSING) ->
  (forall t, In t (filesToProcess fs) -> raises processImage t = false) ->
  all_completed (processBatch_files processImage fs) = true /\
  (forall w, files w = processBatch_files processImage fs ->
             processBatch_click w = w) /\
  (forall p', processBatch_files p' (processBatch_files processImage fs)
              = processBatch_files processImage fs).
Proof.
  intros Hno Hall.
  assert (Hc : all_completed (processBatch_files processImage fs) = true).
  { unfold all_completed. apply forallb_forall. intros g' Hg'.
    apply In_nth_error in Hg'. destruct Hg' as (k & Hk).
    assert (Hlt : k < length fs).
    { rewrite <- (process_all_length processImage (filesToProcess fs) fs).
      apply nth_error_Some. unfold processBatch_files in Hk.
      rewrite Hk. discriminate. }
    destruct (nth_error fs k) as [g|] eqn:Eg;
      [|apply nth_error_None in Eg; lia].
    destruct (process_all_status processImage (filesToProcess fs) fs k g Eg)
      as (g2 & Hk2 & _ & Hcase).
    unfold processBatch_files in Hk. rewrite Hk in Hk2.
    injection Hk2 as <-. apply status_eqb_eq.
    assert (Hin : In g fs) by (eapply nth_error_In; eassumption).
    destruct Hcase as [(_ & [H|(_ & t & Ht & Hr)])|(Hs & ->)].
    - exact H.
    - rewrite (Hall t Ht) in Hr. discriminate Hr.
    - specialize (Hno g Hin).
      destruct (eligible g) eqn:E.
      + rewrite (eligible_selected fs g Hin E) in Hs. discriminate Hs.
      + unfold eligible in E.
        destruct (status g); try discriminate E; congruence. }
  split; [exact Hc|]. split.
  - intros w Hw. unfold processBatch_click. rewrite Hw, Hc.
    now rewrite orb_true_r.
  - intros p'. unfold processBatch_files at 1.
    now rewrite (all_completed_no_work _ Hc).
Qed.

Lemma successful_run_completes_all_witness :
  all_completed
    (processBatch_files always_succeeds
       [item "a" "a.png" IDLE; with_error (item "b" "b.png" IDLE)]) = true.
Proof.
  apply (successful_run_completes_all always_succeeds
           [item "a" "a.png" IDLE; with_error (item "b" "b.png" IDLE)]).
  - intros g [<-|[<-|[]]]; discriminate.
  - intros t _. reflexivity.
Defined.

(** ** The busy flag and the pending promise *)

Lemma non_batch_keeps_run env w e :
  is_batch_event e = false ->
  isProcessingBatch (step env w e) = isProcessingBatch w /\
  awaited (step env w e) = awaited w /\
  filesToProcess_rest (step env w e) = filesToProcess_rest w.
Proof.
  intros H. destruct e; try discriminate H; simpl; auto.
  - unfold handleFiles. destruct newFiles; auto.
    destruct (MAX_FILES env <? _); auto.
  - unfold img_onload. destruct (nth_error _ _); auto.
  - unfold downloadAllZip. destruct (length _ =? 0); auto.
    destruct (zip_entries _ _); auto.
Qed.

Lemma busy_batch_advance w :
  awaited w = None -> isProcessingBatch w = true ->
  busy_iff_pending (batch_advance w).
Proof.
  intros Ha Hp. unfold batch_advance, busy_iff_pending.
  destruct (filesToProcess_rest w); simpl.
  - repeat split; congruence.
  - rewrite Hp. repeat split; congruence.
Qed.

Lemma busy_step env w e :
  busy_iff_pending w -> busy_iff_pending (step env w e).
Proof.
  intros Hb. destruct (is_batch_event e) eqn:E.
  - destruct e; try discriminate E; simpl.
    + unfold processBatch_click.
      destruct (isProcessingBatch w || all_completed (files w)); [exact Hb|].
      now apply busy_batch_advance.
    + unfold processImage_settled. destruct (awaited w) eqn:Ha; [|exact Hb].
      apply busy_batch_advance; [reflexivity|]. simpl.
      apply Hb. congruence.
  - destruct (non_batch_keeps_run env w e E) as (Ep & Ea & Eq).
    unfold busy_iff_pending in *. now rewrite Ep, Ea, Eq.
Qed.

Lemma busy_run env events w :
  busy_iff_pending w -> busy_iff_pending (run env events w).
Proof.
  apply (run_invariant busy_iff_pending). intros w0 e. apply busy_step.
Qed.

Lemma busy_initial : busy_iff_pending initial_world.
Proof. unfold busy_iff_pending. simpl. repeat split; congruence. Qed.

(** X8. In every state the component reaches, the busy flag of the batch
    run is up exactly while a [processImage] promise is pending, and while
    it is pending a click on "Upscale All" changes nothing: two runs never
    overlap. *)
Theorem runs_never_overlap (env : Env) (events : list Event) :
  (isProcessingBatch (run env events initial_world) = true <->
   awaited (run env events initial_world) <> None) /\
  (awaited (run env events initial_world) <> None ->
   step env (run env events initial_world) EvProcessBatch
   = run env events initial_world).
Proof.
  destruct (busy_run env events initial_world busy_initial) as [Hb _].
  split; [exact Hb|]. intros Ha. simpl. unfold processBatch_click.
  apply Hb in Ha. now rewrite Ha.
Qed.

Lemma runs_never_overlap_witness :
  step env_ok
    (run env_ok [EvHandleFiles (Some [png "a.png"]); EvProcessBatch]
         initial_world) EvProcessBatch
  = run env_ok [EvHandleFiles (Some [png "a.png"]); EvProcessBatch]
        initial_world.
Proof.
  apply (proj2 (runs_never_overlap env_ok
                  [EvHandleFiles (Some [png "a.png"]); EvProcessBatch])).
  discriminate.
Defined.

Lemma pending_batch_advance w :
  awaited w = None ->
  pending_calls (batch_advance w) = length (filesToProcess_rest w).
Proof.
  intros Ha. unfold batch_advance, pending_calls, awaited_ids.
  destruct (filesToProcess_rest w); reflexivity.
Qed.

Lemma pending_zero w :
  busy_iff_pending w ->
  (pending_calls w = 0 <-> isProcessingBatch w = false).
Proof.
  intros [Hb Hq]. unfold pending_calls, awaited_ids.
  destruct (awaited w) as [t|] eqn:Ha.
  - assert (isProcessingBatch w = true) by (apply Hb; discriminate).
    simpl. split; intros; [lia | congruence].
  - rewrite (Hq eq_refl). simpl. split; [|reflexivity]. intros _.
    destruct (isProcessingBatch w); [|reflexivity].
    destruct (proj1 Hb eq_refl). reflexivity.
Qed.

Lemma pending_run env events :
  forall w,
    busy_iff_pending w ->
    Forall (fun e => is_click_event e = false) events ->
    pending_calls (run env events w) = pending_calls w - count_settled events.
Proof.
  induction events as [|e events IH]; intros w Hb Hnc.
  - change (run env [] w) with w. unfold count_settled. simpl length.
    now rewrite Nat.sub_0_r.
  - inversion Hnc as [|? ? He Hnc']; subst.
    change (run env (e :: events) w) with (run env events (step env w e)).
    rewrite (IH _ (busy_step env w e Hb) Hnc').
    unfold count_settled. simpl filter.
    destruct (is_settled_event e) eqn:Es.
    + destruct e; try discriminate Es. simpl step. simpl length.
      unfold processImage_settled.
      destruct (awaited w) as [t|] eqn:Ha.
      * rewrite pending_batch_advance by reflexivity. simpl.
        unfold pending_calls, awaited_ids. rewrite Ha. simpl. lia.
      * destruct Hb as [_ Hq]. unfold pending_calls, awaited_ids.
        rewrite Ha, (Hq Ha). simpl. lia.
    + assert (Eb : is_batch_event e = false)
        by (unfold is_batch_event; now rewrite He, Es).
      destruct (non_batch_keeps_run env w e Eb) as (_ & Ea & Eq).
      unfold pending_calls, awaited_ids. now rewrite Ea, Eq.
Qed.

(** X9. A run started by a click ends, and re-enables the button, exactly
    when as many [processImage] promises have settled as there were IDLE
    and ERROR items at the click; submissions, removals, edits and probes
    that happen in between neither shorten nor prolong it. *)
Theorem run_ends_after_selected_calls
  (env : Env) (w : World) (events : list Event) :
  isProcessingBatch w = false ->
  all_completed (files w) = false ->
  Forall (fun e => is_click_event e = false) events ->
  (isProcessingBatch (run env events (processBatch_click w)) = false <->
   length (filesToProcess (files w)) <= count_settled events).
Proof.
  intros Hp Hall Hnc.
  assert (E : processBatch_click w
              = batch_advance
                  {| files := files w;
                     globalSettings := globalSettings w;
                     isProcessingBatch := true;
                     isZipping := isZipping w;
                     probes := probes w;
                     filesToProcess_rest := filesToProcess (files w);
                     awaited := None;
                     random_calls := random_calls w;
                     url_calls := url_calls w |}).
  { unfold processBatch_click. now rewrite Hp, Hall. }
  assert (Hb : busy_iff_pending (processBatch_click w)).
  { rewrite E. now apply busy_batch_advance. }
  rewrite <- (pending_zero _ (busy_run env events _ Hb)).
  rewrite (pending_run env events _ Hb Hnc).
  rewrite E, pending_batch_advance by reflexivity. simpl. lia.
Qed.

Lemma run_ends_after_selected_calls_witness :
  isProcessingBatch
    (run env_ok
       [EvProcessImageSettled Rejected;
        EvUpdateGlobalSettings (only_dpi 72);
        EvProcessImageSettled (Resolved "blob:out/b.png")]
       (processBatch_click
          (world_of [item "a" "a.png" IDLE; item "b" "b.png" IDLE])))
  = false.
Proof.
  apply (run_ends_after_selected_calls env_ok
           (world_of [item "a" "a.png" IDLE; item "b" "b.png" IDLE])
           [EvProcessImageSettled Rejected;
            EvUpdateGlobalSettings (only_dpi 72);
            EvProcessImageSettled (Resolved "blob:out/b.png")]).
  - reflexivity.
  - reflexivity.
  - repeat constructor.
  - vm_compute. lia.
Defined.

(** ** Settings updates *)

Lemma merge_settings_no_keys s : merge_settings s no_keys = s.
Proof. now destruct s. Qed.

Lemma merge_settings_twice s d1 d2 :
  merge_settings (merge_settings s d1) d2
  = merge_settings s (spread_partial d1 d2).
Proof.
  destruct d1 as [[?|] [?|] [?|] [?|]], d2 as [[?|] [?|] [?|] [?|]];
    reflexivity.
Qed.

Lemma spread_partial_same d : spread_partial d d = d.
Proof. destruct d as [[?|] [?|] [?|] [?|]]; reflexivity. Qed.

Lemma with_settings_same f : with_settings f (settings f) = f.
Proof. now destruct f. Qed.

Lemma apply_to_idle_twice d1 d2 l :
  apply_to_idle d2 (apply_to_idle d1 l)
  = apply_to_idle (spread_partial d1 d2) l.
Proof.
  unfold apply_to_idle. rewrite map_map. apply map_ext. intros f.
  destruct (status_eqb (status f) IDLE) eqn:E; simpl; rewrite E;
    [|reflexivity].
  unfold with_settings. simpl. now rewrite merge_settings_twice.
Qed.

Lemma updateGlobalSettings_twice d1 d2 w :
  updateGlobalSettings d2 (updateGlobalSettings d1 w)
  = updateGlobalSettings (spread_partial d1 d2) w.
Proof.
  unfold updateGlobalSettings. simpl.
  now rewrite apply_to_idle_twice, merge_settings_twice.
Qed.

(** X10. Settings updates compose by key: two global updates in a row
    equal one update with the keys of the second laid over the first, and
    so do two updates of the same item; repeating an update changes
    nothing more, and an update without keys changes nothing at all. *)
Theorem settings_updates_compose
  (d1 d2 : PartialSettings) (i : string) (w : World) :
  updateGlobalSettings d2 (updateGlobalSettings d1 w)
    = updateGlobalSettings (spread_partial d1 d2) w /\
  updateFileSettings i d2 (updateFileSettings i d1 (files w))
    = updateFileSettings i (spread_partial d1 d2) (files w) /\
  updateGlobalSettings d1 (updateGlobalSettings d1 w)
    = updateGlobalSettings d1 w /\
  updateGlobalSettings no_keys w = w.
Proof.
  split; [apply updateGlobalSettings_twice|]. split; [|split].
  - unfold updateFileSettings, update_by_id. rewrite map_map.
    apply map_ext. intros f.
    destruct (String.eqb (id f) i) eqn:E; simpl; rewrite E; [|reflexivity].
    unfold with_settings. simpl. now rewrite merge_settings_twice.
  - now rewrite updateGlobalSettings_twice, spread_partial_same.
  - unfold updateGlobalSettings. rewrite merge_settings_no_keys.
    replace (apply_to_idle no_keys (files w)) with (files w);
      [now destruct w|].
    unfold apply_to_idle. rewrite <- (map_id (files w)) at 1.
    apply map_ext. intros f.
    destruct (status_eqb (status f) IDLE); [|reflexivity].
    now rewrite merge_settings_no_keys, with_settings_same.
Qed.

Lemma globalSettings_step env w e :
  globalSettings (step env w e)
  = match e with
    | EvUpdateGlobalSettings d => merge_settings (globalSettings w) d
    | _ => globalSettings w
    end.
Proof.
  destruct e; simpl; try reflexivity.
  - unfold handleFiles. destruct newFiles; [|reflexivity].
    now destruct (MAX_FILES env <? _).
  - unfold img_onload. now destruct (nth_error _ _).
  - unfold processBatch_click.
    destruct (isProcessingBatch w || all_completed (files w));
      [reflexivity|].
    unfold batch_advance. simpl. now destruct (filesToProcess (files w)).
  - unfold processImage_settled. destruct (awaited w); [|reflexivity].
    unfold batch_advance. simpl. now destruct (filesToProcess_rest w).
  - unfold downloadAllZip. destruct (length _ =? 0); [reflexivity|].
    now destruct (zip_entries _ _).
Qed.

Lemma mirrors_step env w e :
  is_file_settings_event e = false ->
  mirrors_defaults w -> mirrors_defaults (step env w e).
Proof.
  intros He H. unfold mirrors_defaults in *.
  rewrite globalSettings_step.
  destruct e; try discriminate He; simpl.
  - unfold handleFiles. destruct newFiles as [fl|]; [|exact H].
    destruct (MAX_FILES env <? _); [exact H|]. simpl.
    apply Forall_app. split; [exact H|].
    eapply Forall_impl; [|apply new_items_fresh].
    intros f (_ & _ & _ & Es & _) _. exact Es.
  - unfold img_onload. destruct (nth_error _ _); [|exact H]. simpl.
    apply Forall_update_by_id; [|exact H]. auto.
  - unfold apply_to_idle. apply Forall_map.
    eapply Forall_impl; [|exact H]. intros f Hf. simpl.
    destruct (status_eqb_spec (status f) IDLE) as [E|E]; simpl.
    + intros _. now rewrite (Hf E).
    + intros E'. contradiction.
  - apply Forall_update_by_id; [|exact H]. auto.
  - now apply Forall_filter.
  - constructor.
  - unfold processBatch_click.
    destruct (isProcessingBatch w || all_completed (files w)); [exact H|].
    unfold batch_advance. simpl.
    destruct (filesToProcess (files w)); simpl; [exact H|].
    apply Forall_update_by_id; [|exact H]. intros f _. discriminate.
  - unfold processImage_settled. destruct (awaited w); [|exact H].
    unfold batch_advance. simpl.
    assert (Hs : Forall (fun f => status f = IDLE ->
                                  settings f = globalSettings w)
                        (settle i r (files w))).
    { destruct r; simpl; (apply Forall_update_by_id; [|exact H]);
        intros f _; discriminate. }
    destruct (filesToProcess_rest w); simpl; [exact Hs|].
    apply Forall_update_by_id; [|exact Hs]. intros f _. discriminate.
  - now rewrite downloadAllZip_files.
Qed.

Lemma mirrors_run env events :
  forall w,
    Forall (fun e => is_file_settings_event e = false) events ->
    mirrors_defaults w -> mirrors_defaults (run env events w).
Proof.
  induction events as [|e events IH]; intros w Hev Hw; [exact Hw|].
  inversion Hev as [|? ? He Hev']; subst.
  change (run env (e :: events) w) with (run env events (step env w e)).
  apply IH; [exact Hev'|]. now apply mirrors_step.
Qed.

(** X11. As long as no item has been edited on its own, every IDLE item
    carries exactly the current batch defaults: items are created with
    them and every global update reaches each IDLE item, whatever else
    happens in between. *)
Theorem idle_items_mirror_defaults (env : Env) (events : list Event) :
  Forall (fun e => is_file_settings_event e = false) events ->
  forall f, In f (files (run env events initial_world)) ->
    status f = IDLE ->
    settings f = globalSettings (run env events initial_world).
Proof.
  intros Hev f Hf.
  assert (H : mirrors_defaults (run env events initial_world)).
  { apply mirrors_run; [exact Hev | constructor]. }
  unfold mirrors_defaults in H. rewrite Forall_forall in H. now apply H.
Qed.

Lemma idle_items_mirror_defaults_witness :
  dpi (settings (new_item env_ok
                   (merge_settings DEFAULT_SETTINGS (only_dpi 150))
                   0 0 (png "a.png"))) = 150
  /\ settings (new_item env_ok
                 (merge_settings DEFAULT_SETTINGS (only_dpi 150))
                 0 0 (png "a.png"))
     = globalSettings
         (run env_ok
            [EvHandleFiles (Some [png "a.png"]);
             EvUpdateGlobalSettings (only_dpi 150);
             EvHandleFiles (Some [png "b.png"])] initial_world).
Proof.
  split; [reflexivity|].
  apply (idle_items_mirror_defaults env_ok
           [EvHandleFiles (Some [png "a.png"]);
            EvUpdateGlobalSettings (only_dpi 150);
            EvHandleFiles (Some [png "b.png"])]).
  - repeat constructor.
  - left. reflexivity.
  - reflexivity.
Defined.

(** ** Removal *)

Lemma removeFile_In i l f :
  In f (removeFile i l) <-> In f l /\ id f <> i.
Proof.
  unfold removeFile. rewrite filter_In.
  destruct (String.eqb_spec (id f) i); simpl; intuition congruence.
Qed.

Lemma filter_filter_comm {A} (p q : A -> bool) (l : list A) :
  filter p (filter q l) = filter q (filter p l).
Proof.
  induction l as [|a l IH]; [reflexivity|]. simpl.
  destruct (p a) eqn:Ep, (q a) eqn:Eq; simpl; rewrite ?Ep, ?Eq, IH;
    reflexivity.
Qed.

(** X12. [removeFile i] drops every item with identifier [i] and keeps
    all the others, each as often as it occurs and in the same order: it
    drops or keeps a single item by its identifier and distributes over
    the concatenation of lists.  Hence removing an identifier that is not
    in the list changes nothing, removing twice is removing once, and
    removals of different identifiers can be done in either order. *)
Theorem removeFile_algebra (i j : string) (l l' : list ImageFile) :
  removeFile i (l ++ l') = removeFile i l ++ removeFile i l' /\
  (forall f, id f = i -> removeFile i [f] = []) /\
  (forall f, id f <> i -> removeFile i [f] = [f]) /\
  (forall f, In f (removeFile i l) <-> In f l /\ id f <> i) /\
  ((forall f, In f l -> id f <> i) -> removeFile i l = l) /\
  removeFile i (removeFile i l) = removeFile i l /\
  removeFile i (removeFile j l) = removeFile j (removeFile i l).
Proof.
  split; [apply filter_app|].
  split; [intros f E; unfold removeFile; simpl;
          now rewrite E, String.eqb_refl|].
  split; [intros f E; unfold removeFile; simpl;
          now destruct (String.eqb_spec (id f) i)|].
  split; [intros f; apply removeFile_In|].
  assert (Hkeep : forall l0, (forall f, In f l0 -> id f <> i) ->
                             removeFile i l0 = l0).
  { intros l0 H. unfold removeFile. apply filter_all.
    apply Forall_forall. intros f Hf.
    destruct (String.eqb_spec (id f) i); [now destruct (H f Hf)|reflexivity]. }
  split; [apply Hkeep|]. split.
  - apply Hkeep. intros f Hf. now apply removeFile_In in Hf.
  - unfold removeFile. apply filter_filter_comm.
Qed.

Lemma removeFile_algebra_witness :
  removeFile "z" [item "a" "a.png" IDLE; item "b" "b.png" ERROR]
  = [item "a" "a.png" IDLE; item "b" "b.png" ERROR]
  /\ removeFile "a" [item "a" "a.png" IDLE] = []
  /\ removeFile "a" [item "b" "b.png" ERROR] = [item "b" "b.png" ERROR].
Proof.
  split; [|split].
  - apply (proj1 (proj2 (proj2 (proj2 (proj2
             (removeFile_algebra "z" "z"
                [item "a" "a.png" IDLE; item "b" "b.png" ERROR] [])))))).
    intros f [<-|[<-|[]]]; discriminate.
  - apply (proj1 (proj2 (removeFile_algebra "a" "a" [] []))). reflexivity.
  - apply (proj1 (proj2 (proj2 (removeFile_algebra "a" "a" [] [])))).
    discriminate.
Defined.

Lemma cleared_step env w e :
  is_submission_event e = false -> files w = [] ->
  files (step env w e) = [].
Proof.
  intros He Hw. destruct e; try discriminate He; simpl; rewrite ?Hw;
    try reflexivity.
  - unfold img_onload. destruct (nth_error _ _); simpl; now rewrite Hw.
  - unfold processBatch_click. rewrite Hw. simpl. now rewrite orb_true_r.
  - unfold processImage_settled. destruct (awaited w); [|exact Hw].
    unfold batch_advance. simpl. rewrite Hw.
    destruct (filesToProcess_rest w); simpl; now destruct r.
  - now rewrite downloadAllZip_files.
Qed.

(** X13. Once the list is empty (after "Clear All", or after the last
    item was removed), only a new submission brings an item into it: the
    results of a run that is still in flight, late probes and late
    analysis texts are all discarded. *)
Theorem emptied_list_stays_empty
  (env : Env) (events : list Event) (w : World) :
  files w = [] ->
  Forall (fun e => is_submission_event e = false) events ->
  files (run env events w) = [].
Proof.
  revert w. induction events as [|e events IH]; intros w Hw Hev;
    [exact Hw|].
  inversion Hev as [|? ? He Hev']; subst.
  change (run env (e :: events) w) with (run env events (step env w e)).
  apply IH; [|exact Hev']. now apply cleared_step.
Qed.

Lemma emptied_list_stays_empty_witness :
  files (run env_ok
           [EvProcessImageSettled (Resolved "blob:out/a.png");
            EvImgOnload 0 640 480]
           (step env_ok
              (run env_ok [EvHandleFiles (Some [png "a.png"]);
                           EvProcessBatch] initial_world)
              EvClearAll))
  = [].
Proof.
  apply (emptied_list_stays_empty env_ok
           [EvProcessImageSettled (Resolved "blob:out/a.png");
            EvImgOnload 0 640 480]).
  - reflexivity.
  - repeat constructor.
Defined.

(** ** Export *)

Lemma exportable_url f :
  exportable f = true ->
  exists c u, processedUrl f = Some (String c u) /\ url_of f = String c u.
Proof.
  unfold exportable, url_of. intros H. apply andb_true_iff in H.
  destruct H as [_ H]. destruct (processedUrl f) as [[|c u]|];
    try discriminate H. eauto.
Qed.

Lemma zip_entries_all env (bytes : string -> Blob) l :
  Forall (fun f => exportable f = true /\
                   fetch_blob env (url_of f) = Some (bytes (url_of f))) l ->
  zip_entries env l
  = Some (map (fun f => (export_name f, bytes (url_of f))) l).
Proof.
  induction 1 as [|f l [Hex Hf] _ IH]; [reflexivity|].
  destruct (exportable_url f Hex) as (c & u & Hu & Eu).
  simpl. rewrite Eu in *. now rewrite Hu, Hf, IH.
Qed.

(** X14. When every fetch of an output succeeds, the export is decided by
    the COMPLETED items with a non-empty output URL.  Without any, nothing
    happens and nothing is downloaded.  Otherwise [zip.file] is called
    once per such item, in list order, with the name and the bytes of the
    item; when these names are pairwise distinct, so that no call replaces
    the entry of an earlier one, the archive [UltraArt_Batch_<date>.zip]
    that is downloaded holds exactly one entry per such item, and the
    export is no longer busy. *)
Theorem export_outcome (env : Env) (bytes : string -> Blob) (w : World) :
  (forall f, In f (files w) -> exportable f = true ->
             fetch_blob env (url_of f) = Some (bytes (url_of f))) ->
  (filter exportable (files w) = [] ->
   downloadAllZip env w = (w, NothingToExport)) /\
  zip_entries env (filter exportable (files w))
    = Some (map (fun f => (export_name f, bytes (url_of f)))
                (filter exportable (files w))) /\
  (filter exportable (files w) <> [] ->
   NoDup (map export_name (filter exportable (files w))) ->
   exists entries,
     snd (downloadAllZip env w)
     = Downloaded
         ("UltraArt_Batch_" ++ substring 0 10 (toISOString_now env)
            ++ ".zip")%string entries /\
     entries = map (fun f => (export_name f, bytes (url_of f)))
                   (filter exportable (files w)) /\
     NoDup (map fst entries) /\
     length entries = length (filter exportable (files w)) /\
     isZipping (fst (downloadAllZip env w)) = false).
Proof.
  intros Hfetch.
  assert (Hall : Forall (fun f => exportable f = true /\
                   fetch_blob env (url_of f) = Some (bytes (url_of f)))
                        (filter exportable (files w))).
  { apply Forall_forall. intros f Hf. apply filter_In in Hf.
    split; [tauto|]. apply Hfetch; tauto. }
  pose proof (zip_entries_all env bytes _ Hall) as Hz.
  split; [|split; [exact Hz|]].
  - intros E. unfold downloadAllZip. now rewrite E.
  - intros Hne Hnd.
    exists (map (fun f => (export_name f, bytes (url_of f)))
                (filter exportable (files w))).
    unfold downloadAllZip. rewrite Hz.
    split; [|split; [reflexivity|split; [|split; [apply length_map|]]]].
    + destruct (filter exportable (files w)); [now destruct Hne|].
      reflexivity.
    + rewrite map_map. exact Hnd.
    + destruct (filter exportable (files w)); [now destruct Hne|].
      reflexivity.
Qed.

Lemma export_outcome_witness :
  exists entries,
    snd (downloadAllZip env_ok
           (world_of [with_completed (item "a" "a.png" IDLE) "blob:out/a";
                      item "b" "b.png" IDLE]))
    = Downloaded "UltraArt_Batch_2024-05-17.zip" entries /\
    entries = [("a_UPSCALED.png", "bytes of blob:out/a")].
Proof.
  destruct (proj2 (proj2 (export_outcome env_ok
                  (fun u => ("bytes of " ++ u)%string)
                  (world_of
                     [with_completed (item "a" "a.png" IDLE) "blob:out/a";
                      item "b" "b.png" IDLE])
                  (fun f _ _ => eq_refl))))
    as (entries & H & E & _).
  - discriminate.
  - repeat constructor. simpl. tauto.
  - exists entries. split; [exact H | exact E].
Defined.

(** ** File names *)

Lemma no_slash_or_dot_after_dot s ext :
  no_slash_or_dot (s ++ String "." ext) = false.
Proof.
  induction s as [|c s IH]; simpl; [reflexivity|].
  rewrite IH. apply andb_false_r.
Qed.

Lemma strip_extension_added s ext :
  ext <> EmptyString -> no_slash_or_dot ext = true ->
  strip_extension (s ++ String "." ext) = s.
Proof.
  intros Hne Hclean. induction s as [|c s IH]; simpl.
  - rewrite Hclean. destruct ext; [now destruct Hne | reflexivity].
  - rewrite no_slash_or_dot_after_dot, !andb_false_r. now rewrite IH.
Qed.

Lemma strip_extension_prefix s :
  exists r,
    s = (strip_extension s ++ r)%string /\
    (r = EmptyString \/
     exists ext, r = String "." ext /\ ext <> EmptyString /\
                 no_slash_or_dot ext = true).
Proof.
  induction s as [|c s (r & Es & Hr)].
  - exists EmptyString. auto.
  - simpl.
    destruct (Ascii.eqb_spec c ".") as [->|Hc]; simpl.
    + destruct (String.eqb_spec s EmptyString) as [->|Hs]; simpl.
      * exists EmptyString. split; [reflexivity | now left].
      * destruct (no_slash_or_dot s) eqn:Hn.
        -- exists (String "." s). split; [reflexivity|]. right.
           exists s. auto.
        -- exists r. simpl. split; [now rewrite <- Es | exact Hr].
    + exists r. simpl. split; [now rewrite <- Es | exact Hr].
Qed.

(** X15. The name under which a result is saved is the original name
    with its last extension cut off: what is removed is nothing, or a dot
    followed by one or more characters other than dot and slash at the
    very end, and appending such an extension to any name and cutting it
    again gives the name back. *)
Theorem strip_extension_cuts_last_extension (s : string) :
  (exists r,
     s = (strip_extension s ++ r)%string /\
     (r = EmptyString \/
      exists ext, r = String "." ext /\ ext <> EmptyString /\
                  no_slash_or_dot ext = true)) /\
  (forall ext, ext <> EmptyString -> no_slash_or_dot ext = true ->
               strip_extension (s ++ String "." ext) = s).
Proof.
  split; [apply strip_extension_prefix|].
  intros ext. apply strip_extension_added.
Qed.

Lemma strip_extension_cuts_last_extension_witness :
  strip_extension ("holiday.2024" ++ String "." "jpeg") = "holiday.2024".
Proof.
  apply (proj2 (strip_extension_cuts_last_extension "holiday.2024") "jpeg").
  - discriminate.
  - reflexivity.
Defined.

(** X16. The file name of the SAVE link of a card and the name of the
    item's entry in the archive are the same, and two items whose
    original names differ only in their extension get the same name
    ([stem_UPSCALED.png]). *)
Theorem download_names_agree_and_clash
  (f g : ImageFile) (stem ext1 ext2 : string) :
  getDownloadFilename f = export_name f /\
  (originalName f = (stem ++ String "." ext1)%string ->
   originalName g = (stem ++ String "." ext2)%string ->
   ext1 <> EmptyString -> no_slash_or_dot ext1 = true ->
   ext2 <> EmptyString -> no_slash_or_dot ext2 = true ->
   export_name f = (stem ++ "_UPSCALED.png")%string /\
   export_name g = export_name f).
Proof.
  split; [reflexivity|]. intros Ef Eg H1 C1 H2 C2.
  unfold export_name. rewrite Ef, Eg.
  now rewrite !strip_extension_added.
Qed.

Lemma download_names_agree_and_clash_witness :
  export_name (item "a" "logo.png" IDLE)
  = export_name (item "b" "logo.webp" IDLE).
Proof.
  symmetry.
  apply (proj2 (download_names_agree_and_clash
                  (item "b" "logo.webp" IDLE) (item "a" "logo.png" IDLE)
                  "logo" "webp" "png"));
    try reflexivity; discriminate.
Defined.

(** ** Cards *)

(** X17. The analysis text shown on a card, counted in UTF-16 code units
    as the code counts it, is never longer than 53: a text of at most 50
    code units is shown as it is, a longer one as its first 50 code units
    followed by three dots. *)
Theorem analysis_badge_bounded (a : CodeUnits) :
  length (analysis_badge a) <= 53 /\
  (length a <= 50 -> analysis_badge a = a) /\
  (50 < length a ->
   analysis_badge a = firstn 50 a ++ three_dots /\
   length (analysis_badge a) = 53).
Proof.
  unfold analysis_badge.
  destruct (Nat.ltb_spec 50 (length a)) as [H|H].
  - rewrite length_app, length_firstn. simpl length.
    repeat split; try lia; intros; lia.
  - rewrite app_nil_r, length_firstn.
    repeat split; try lia. intros _. now apply firstn_all2.
Qed.

Lemma analysis_badge_bounded_witness :
  analysis_badge (repeat 233 30) = repeat 233 30.
Proof.
  apply (proj1 (proj2 (analysis_badge_bounded (repeat 233 30)))).
  simpl. lia.
Defined.

(** X18. The size shown on a card is the file size in units of 1024
    bytes rounded to the nearest integer, a half rounded up: it differs
    from the exact quotient by at most one half. *)
Theorem size_kb_rounds_to_nearest (image : ImageFile) :
  1024 * size_kb image <= size (file image) + 512 /\
  size (file image) < 1024 * size_kb image + 512.
Proof.
  unfold size_kb.
  pose proof (Nat.div_mod_eq (size (file image) + 512) 1024) as E.
  pose proof (Nat.mod_upper_bound (size (file image) + 512) 1024) as B.
  lia.
Qed.

(** X19. In every state the component reaches, whatever the identifiers,
    a card that shows the SAVE link has a target for it, and when that
    URL is not empty the thumbnail shows the result instead of the
    preview. *)
Theorem save_link_has_target
  (env : Env) (events : list Event) (f : ImageFile) :
  In f (files (run env events initial_world)) ->
  shows_save f = true ->
  exists u, save_href f = Some u /\
            (u <> EmptyString -> thumbnail_src f = u).
Proof.
  intros Hf Hs. pose proof (lifecycle_ok_run env events) as H.
  rewrite Forall_forall in H. destruct (H f Hf) as (Hc & _).
  unfold shows_save, isComplete in Hs. pose proof Hs as Hs'.
  apply status_eqb_eq in Hs'. specialize (Hc Hs').
  unfold save_href, thumbnail_src, isComplete.
  destruct (processedUrl f) as [u|]; [|now destruct Hc].
  exists u. split; [reflexivity|]. intros Hu.
  destruct u; [now destruct Hu|]. now rewrite Hs.
Qed.

Lemma save_link_has_target_witness :
  exists u,
    save_href (with_completed
                 (new_item env_ok DEFAULT_SETTINGS 0 0 (png "a.png"))
                 "blob:out/a.png") = Some u.
Proof.
  destruct (save_link_has_target env_ok
              [EvHandleFiles (Some [png "a.png"]); EvProcessBatch;
               EvProcessImageSettled (Resolved "blob:out/a.png")]
              (with_completed
                 (new_item env_ok DEFAULT_SETTINGS 0 0 (png "a.png"))
                 "blob:out/a.png"))
    as (u & Hu & _).
  - left. reflexivity.
  - reflexivity.
  - exists u. exact Hu.
Defined.





(** ** The settings panel *)

(** X22. In the batch settings panel the two controls are independent:
    choosing a factor highlights that button and no other and leaves the
    DPI of the defaults and of every item alone, choosing a DPI leaves
    every factor alone, and the two choices give the same state in either
    order. *)
Theorem panel_controls_independent
  (factor : UpscaleFactor) (value : DpiOutput) (w : World) :
  (forall b, factor_button_active
               (globalSettings (updateGlobalSettings (choose_factor factor) w))
               b = factor_eqb factor b) /\
  map (fun f => dpi (settings f))
      (files (updateGlobalSettings (choose_factor factor) w))
    = map (fun f => dpi (settings f)) (files w) /\
  dpi (globalSettings (updateGlobalSettings (choose_factor factor) w))
    = dpi (globalSettings w) /\
  map (fun f => upscaleFactor (settings f))
      (files (updateGlobalSettings (choose_dpi value) w))
    = map (fun f => upscaleFactor (settings f)) (files w) /\
  updateGlobalSettings (choose_dpi value)
    (updateGlobalSettings (choose_factor factor) w)
  = updateGlobalSettings (choose_factor factor)
      (updateGlobalSettings (choose_dpi value) w).
Proof.
  split; [reflexivity|]. split; [|split; [reflexivity|split]].
  - simpl. unfold apply_to_idle. rewrite map_map. apply map_ext.
    intros f. now destruct (status_eqb (status f) IDLE).
  - simpl. unfold apply_to_idle. rewrite map_map. apply map_ext.
    intros f. now destruct (status_eqb (status f) IDLE).
  - now rewrite !updateGlobalSettings_twice.
Qed.

(** ** Identifiers *)

Lemma substring_length_le n m s : String.length (substring n m s) <= m.
Proof.
  revert n s. induction m as [|m IH]; intros n s.
  - revert s. induction n as [|n IHn]; intros [|c s]; simpl; auto.
  - revert s. induction n as [|n IHn]; intros [|c s]; simpl; auto.
    + lia.
    + specialize (IH 0 s). lia.
    + lia.
Qed.

Lemma short_ids_step env w e :
  Forall (fun f => String.length (id f) <= 9) (files w) ->
  Forall (fun f => String.length (id f) <= 9) (files (step env w e)).
Proof.
  intros H.
  set (P := fun f : ImageFile => String.length (id f) <= 9) in *.
  assert (Hu : forall i g l, (forall f, id (g f) = id f) ->
                             Forall P l -> Forall P (update_by_id i g l)).
  { intros i g l Hg. apply Forall_update_by_id. intros f. unfold P.
    now rewrite Hg. }
  destruct e; simpl.
  - unfold handleFiles. destruct newFiles as [fl|]; [|exact H].
    destruct (MAX_FILES env <? _); [exact H|]. simpl.
    apply Forall_app. split; [exact H|].
    apply Forall_forall. intros f Hf.
    assert (Hi : In (id f) (map id (new_items env (globalSettings w)
                     (random_calls w) (url_calls w) (filter is_image fl))))
      by now apply in_map.
    rewrite new_items_ids in Hi. apply in_map_iff in Hi.
    destruct Hi as (k & Ek & _). unfold P. rewrite <- Ek.
    apply substring_length_le.
  - unfold img_onload. destruct (nth_error _ _); [|exact H]. simpl.
    now apply Hu.
  - unfold apply_to_idle. apply Forall_map.
    eapply Forall_impl; [|exact H]. intros f Hf.
    now destruct (status_eqb (status f) IDLE).
  - now apply Hu.
  - now apply Hu.
  - now apply Forall_filter.
  - constructor.
  - unfold processBatch_click.
    destruct (isProcessingBatch w || all_completed (files w)); [exact H|].
    unfold batch_advance. simpl.
    destruct (filesToProcess (files w)); simpl; [exact H | now apply Hu].
  - unfold processImage_settled. destruct (awaited w); [|exact H].
    unfold batch_advance. simpl.
    assert (Hs : Forall P (settle i r (files w)))
      by (destruct r; now apply Hu).
    destruct (filesToProcess_rest w); simpl; [exact Hs | now apply Hu].
  - now rewrite downloadAllZip_files.
Qed.

(** X23. Every identifier in the file list has at most nine characters,
    in every state the component reaches and for every generator. *)
Theorem identifiers_at_most_nine_characters
  (env : Env) (events : list Event) :
  Forall (fun f => String.length (id f) <= 9)
         (files (run env events initial_world)).
Proof.
  apply (run_invariant
           (fun w => Forall (fun f => String.length (id f) <= 9) (files w))).
  - intros w e. apply short_ids_step.
  - constructor.
Qed.

(** ** Late probes under a collision-free generator

    The rewriting of another item by a late probe needs the identifier
    of the removed item to be drawn again: as long as the draws differ,
    a removed identifier never comes back and the late probe changes
    nothing. *)

Lemma random_calls_run env events :
  forall w, random_calls w <= random_calls (run env events w).
Proof.
  induction events as [|e events IH]; intros w; [apply Nat.le_refl|].
  change (run env (e :: events) w) with (run env events (step env w e)).
  pose proof (random_calls_step env w e). specialize (IH (step env w e)).
  lia.
Qed.

Lemma ids_step_known env w e f' :
  In f' (files (step env w e)) ->
  (exists f, In f (files w) /\ id f' = id f) \/
  (exists k, random_calls w <= k < random_calls (step env w e) /\
             id f' = fresh_id env k).
Proof.
  assert (Hu : forall i g l,
            (forall f, id (g f) = id f) ->
            In f' (update_by_id i g l) ->
            exists f, In f l /\ id f' = id f).
  { intros i g l Hg Hin. apply in_map_iff in Hin.
    destruct Hin as (f & <- & Hf). exists f. split; [exact Hf|].
    destruct (String.eqb (id f) i); auto. }
  destruct e; simpl.
  - unfold handleFiles.
    destruct newFiles as [fl|]; [|unchanged_item f'].
    destruct (MAX_FILES env <? _); [unchanged_item f'|]. simpl.
    intros Hin. apply in_app_or in Hin.
    destruct Hin as [Hin|Hin]; [left; exists f'; auto|].
    right. apply (in_map id) in Hin. rewrite new_items_ids in Hin.
    apply in_map_iff in Hin. destruct Hin as (k & Ek & Hk).
    apply in_seq in Hk. exists k. split; [lia | now symmetry].
  - unfold img_onload.
    destruct (nth_error _ _); [|unchanged_item f']. simpl.
    intros Hin. left. now apply Hu in Hin.
  - intros Hin. left. apply in_map_iff in Hin.
    destruct Hin as (f & <- & Hf). exists f. split; [exact Hf|].
    now destruct (status_eqb (status f) IDLE).
  - intros Hin. left. now apply Hu in Hin.
  - intros Hin. left. now apply Hu in Hin.
  - intros Hin. left. apply filter_In in Hin. exists f'. tauto.
  - intros [].
  - unfold processBatch_click.
    destruct (isProcessingBatch w || all_completed (files w));
      [unchanged_item f'|].
    unfold batch_advance. simpl.
    destruct (filesToProcess (files w)); simpl; [unchanged_item f'|].
    intros Hin. left. now apply Hu in Hin.
  - unfold processImage_settled.
    destruct (awaited w) as [t|]; [|unchanged_item f'].
    unfold batch_advance. simpl.
    assert (Hs : forall x, In x (settle t r (files w)) ->
                 exists f, In f (files w) /\ id x = id f).
    { intros x Hx. destruct r; simpl in Hx; apply in_map_iff in Hx;
        destruct Hx as (f & <- & Hf); exists f; (split; [exact Hf|]);
        destruct (String.eqb (id f) (id t)); reflexivity. }
    destruct (filesToProcess_rest w) as [|t' rest]; simpl;
      [intros Hin; left; auto|].
    intros Hin. left. apply in_map_iff in Hin.
    destruct Hin as (f & <- & Hf). destruct (Hs f Hf) as (f0 & Hf0 & E).
    exists f0. split; [exact Hf0|]. rewrite <- E.
    now destruct (String.eqb (id f) (id t')).
  - rewrite downloadAllZip_files. unchanged_item f'.
Qed.

Lemma removed_id_never_returns env i events :
  forall w,
    drawn_before env (random_calls w) i ->
    (forall f, In f (files w) -> id f <> i) ->
    collision_free env (random_calls (run env events w)) ->
    forall f, In f (files (run env events w)) -> id f <> i.
Proof.
  induction events as [|e events IH]; intros w Hdr Habs Hfree; [exact Habs|].
  change (run env (e :: events) w) with (run env events (step env w e))
    in *.
  pose proof (random_calls_step env w e) as Hle.
  pose proof (random_calls_run env events (step env w e)) as Hle'.
  apply IH; [eapply drawn_before_mono; eassumption| |exact Hfree].
  intros f' Hf' E. destruct (ids_step_known env w e f' Hf')
    as [(f & Hf & Eid)|(k & Hk & Eid)].
  - apply (Habs f Hf). congruence.
  - destruct Hdr as (j & Hj & Ej).
    assert (j = k) by (apply Hfree; try lia; congruence). lia.
Qed.

(** With distinct draws, once the item of a pending probe has been
    removed, the probe changes nothing whenever it fires. *)
Lemma late_probe_discarded_distinct_draws
  env w i events k wd ht :
  drawn_before env (random_calls w) i ->
  collision_free env
    (random_calls (run env events (setFiles (removeFile i) w))) ->
  nth_error (probes (run env events (setFiles (removeFile i) w))) k
    = Some i ->
  files (img_onload k wd ht (run env events (setFiles (removeFile i) w)))
  = files (run env events (setFiles (removeFile i) w)).
Proof.
  intros Hdr Hfree Hk. unfold img_onload. rewrite Hk. simpl.
  apply update_by_id_absent.
  apply (removed_id_never_returns env i events (setFiles (removeFile i) w));
    [exact Hdr | | exact Hfree].
  simpl. intros f. apply removeFile_absent.
Qed.

Example late_probe_discarded_sample :
  files (img_onload 0 640 480
           (run env_ok [EvHandleFiles (Some [png "b.png"])]
              (setFiles (removeFile "4fzyo82mv")
                 (run env_ok [EvHandleFiles (Some [png "a.png"])]
                      initial_world))))
  = files (run env_ok [EvHandleFiles (Some [png "b.png"])]
             (setFiles (removeFile "4fzyo82mv")
                (run env_ok [EvHandleFiles (Some [png "a.png"])]
                     initial_world))).
Proof.
  apply late_probe_discarded_distinct_draws.
  - exists 0. split; [simpl; lia | reflexivity].
  - eapply collision_free_mono; [|apply env_ok_collision_free].
    simpl. lia.
  - reflexivity.
Qed.
